(** * Endpoint generator: filtering, sorting, pagination and soft delete

    A shallow embedding of [backend/app/api/endpoint_generator]
    ([params_funcs.py], [filter_generator.py], [api_models.py],
    [generator.py]) and of the [Status] column of [backend/app/models.py].

    Python values are modelled as follows.
    - [str] is [string]; a character is a code point below 256.
    - [int] is [Z] (unbounded), [//] is [Z.div] (floor division) on a
      divisor other than zero.
    - a [dict] is an association list with unique keys kept in insertion
      order, because [set_filters] iterates over it and the first failing
      entry decides which exception the request ends with.
    - an exception is the [Raise] case of [Result]. *)

From Stdlib Require Import String Ascii List ZArith Bool Lia.
Import ListNotations.

Open Scope string_scope.
Open Scope list_scope.

Set Warnings "-register-all".

(** ** Exceptions *)

Inductive PyError : Type :=
| HTTPException (status_code : Z)
| ValueError
| TypeError
| AttributeError
| KeyError
| ArgumentError
| ZeroDivisionError
| AssertionError
| DataError.   (* the statement is refused when it is executed:
                  [sqlalchemy.exc.DataError] with PostgreSQL, the driver's
                  [OverflowError] with SQLite *)

Inductive Result (A : Type) : Type :=
| Ok (a : A)
| Raise (e : PyError).

Arguments Ok {A} a.
Arguments Raise {A} e.

Definition bind {A B : Type} (m : Result A) (k : A -> Result B) : Result B :=
  match m with
  | Ok a => k a
  | Raise e => Raise e
  end.

Notation "x <- m ;; k" := (bind m (fun x => k))
  (at level 61, m at next level, right associativity).

(** [for x in xs: acc = body(acc, x)], stopping at the first exception. *)
Fixpoint for_each {A S : Type} (body : S -> A -> Result S) (xs : list A) (acc : S)
  : Result S :=
  match xs with
  | [] => Ok acc
  | x :: rest => acc' <- body acc x ;; for_each body rest acc'
  end.

(** A list comprehension [[f(x) for x in xs]] whose element expression may
    raise. *)
Fixpoint comprehension {A B : Type} (f : A -> Result B) (xs : list A)
  : Result (list B) :=
  match xs with
  | [] => Ok []
  | x :: rest => y <- f x ;; ys <- comprehension f rest ;; Ok (y :: ys)
  end.

(** ** Python string primitives *)

Module PyStr.

(** [str.isspace] on one code point below 256: TAB, LF, VT, FF, CR,
    FS, GS, RS, US, SPACE, NEL and NBSP. *)
Definition isspace (c : ascii) : bool :=
  let n := nat_of_ascii c in
  ((9 <=? n) && (n <=? 13) || (28 <=? n) && (n <=? 32)
   || (n =? 133) || (n =? 160))%nat.

Fixpoint lstrip (s : string) : string :=
  match s with
  | String c rest => if isspace c then lstrip rest else s
  | EmptyString => EmptyString
  end.

Fixpoint rstrip (s : string) : string :=
  match s with
  | String c rest =>
      match rstrip rest with
      | EmptyString => if isspace c then EmptyString else String c EmptyString
      | r => String c r
      end
  | EmptyString => EmptyString
  end.

Definition strip (s : string) : string := rstrip (lstrip s).

(** Truth value of a [str]: non-empty. *)
Definition truthy (s : string) : bool :=
  match s with
  | EmptyString => false
  | String _ _ => true
  end.

Definition startswith (s p : string) : bool := prefix p s.

(** Prepend a character to the first piece of a split under construction. *)
Definition push_head (c : ascii) (pieces : list string) : list string :=
  match pieces with
  | h :: t => String c h :: t
  | [] => [String c EmptyString]
  end.

(** [s.split(sep)] for a non-empty [sep]: leftmost, non-overlapping
    occurrences. [skip] counts the characters of a matched separator that
    are still to be passed over. *)
Fixpoint split_from (sep s : string) (skip : nat) : list string :=
  match s with
  | EmptyString => [EmptyString]
  | String c rest =>
      match skip with
      | S k => split_from sep rest k
      | O =>
          if prefix sep s
          then EmptyString :: split_from sep rest (String.length sep - 1)
          else push_head c (split_from sep rest 0)
      end
  end.

Definition split (s sep : string) : list string := split_from sep s 0.

(** [s[1:]] *)
Definition tail (s : string) : string :=
  match s with
  | String _ rest => rest
  | EmptyString => EmptyString
  end.

Definition is_digit (c : ascii) : bool :=
  let n := nat_of_ascii c in ((48 <=? n) && (n <=? 57))%nat.

Definition digit_value (c : ascii) : Z := Z.of_nat (nat_of_ascii c) - 48.

(** Decimal digits with single underscores allowed between digits. *)
Fixpoint digits (s : string) (acc : Z) (after_digit : bool) : option Z :=
  match s with
  | EmptyString => if after_digit then Some acc else None
  | String c rest =>
      if is_digit c then digits rest (10 * acc + digit_value c) true
      else if Ascii.eqb c "_" then
             if after_digit then digits rest acc false else None
      else None
  end.

(** The whitespace [int] skips around a number: that of [str.isspace]
    without the separators FS, GS, RS and US, which [int] rejects. *)
Definition int_space (c : ascii) : bool :=
  let n := nat_of_ascii c in
  (isspace c && negb ((28 <=? n) && (n <=? 31)))%nat.

Fixpoint lskip (s : string) : string :=
  match s with
  | String c rest => if int_space c then lskip rest else s
  | EmptyString => EmptyString
  end.

Fixpoint rskip (s : string) : string :=
  match s with
  | String c rest =>
      match rskip rest with
      | EmptyString => if int_space c then EmptyString else String c EmptyString
      | r => String c r
      end
  | EmptyString => EmptyString
  end.

(** [sys.int_max_str_digits], as the interpreter starts with it. *)
Definition int_max_str_digits : nat := 4300.

(** The digit characters of a number; the sign and the underscores do not
    count towards the limit. *)
Definition digit_count (s : string) : nat :=
  length (filter is_digit (list_ascii_of_string s)).

(** [int(s)] for a [str] in base 10: surrounding whitespace, an optional
    sign, then digits, no more of them than the interpreter's limit.
    [ValueError] otherwise. *)
Definition int (s : string) : Result Z :=
  let t := rskip (lskip s) in
  let parsed :=
    match t with
    | String "-" r => option_map Z.opp (digits r 0 false)
    | String "+" r => digits r 0 false
    | _ => digits t 0 false
    end in
  match parsed with
  | Some z =>
      if (digit_count t <=? int_max_str_digits)%nat then Ok z else Raise ValueError
  | None => Raise ValueError
  end.

(** Every character is whitespace. *)
Definition all_space (s : string) : Prop :=
  forallb isspace (list_ascii_of_string s) = true.

End PyStr.

(** ** [params_funcs.parse_sort_string] *)

(** [[field.strip() for field in sort_string.split(",") if field.strip()]] *)
Definition sort_fields (sort_string : string) : list string :=
  map PyStr.strip
      (filter (fun field => PyStr.truthy (PyStr.strip field))
              (PyStr.split sort_string ",")).

(** The body of the [for field in fields] loop; the accumulator is the pair
    [(sort_columns, sort_orders)]. *)
Definition parse_sort_field (acc : list string * list string) (field : string)
  : list string * list string :=
  let '(sort_columns, sort_orders) := acc in
  if PyStr.startswith field "-" then
    let column_name := PyStr.strip (PyStr.tail field) in
    if PyStr.truthy column_name
    then (sort_columns ++ [column_name], sort_orders ++ ["desc"])
    else (sort_columns, sort_orders)
  else (sort_columns ++ [field], sort_orders ++ ["asc"]).

Definition parse_sort_string (sort_string : string) : list string * list string :=
  if negb (PyStr.truthy sort_string) || negb (PyStr.truthy (PyStr.strip sort_string))
  then ([], [])
  else fold_left parse_sort_field (sort_fields sort_string) ([], []).

(** ** Values and dictionaries *)

(** [models.Status] *)
Inductive Status : Type := active | inactive | deleted.

Definition Status_eqb (a b : Status) : bool :=
  match a, b with
  | active, active | inactive, inactive | deleted, deleted => true
  | _, _ => false
  end.

(** The Python values that travel through the filter pipeline. A [float]
    is kept as its IEEE-754 bit pattern and a [datetime] as its ISO 8601
    text; neither is computed with. *)
Inductive Value : Type :=
| VNone
| VStr (s : string)
| VInt (z : Z)
| VFloat (bits : Z)
| VBool (b : bool)
| VDatetime (iso : string)
| VList (items : list Value).

Definition is_none (v : Value) : bool :=
  match v with
  | VNone => true
  | _ => false
  end.

Definition dict (V : Type) : Type := list (string * V).

Fixpoint dict_get {V : Type} (d : dict V) (k : string) : option V :=
  match d with
  | [] => None
  | (k', v) :: rest => if String.eqb k' k then Some v else dict_get rest k
  end.

(** [d[k] = v]: an existing key keeps its position, a new key goes last. *)
Fixpoint dict_set {V : Type} (d : dict V) (k : string) (v : V) : dict V :=
  match d with
  | [] => [(k, v)]
  | (k', v') :: rest =>
      if String.eqb k' k then (k', v) :: rest else (k', v') :: dict_set rest k v
  end.

Definition dict_keys {V : Type} (d : dict V) : list string := map fst d.

Definition str_in (x : string) (xs : list string) : bool :=
  existsb (String.eqb x) xs.

(** ** [api_models] *)

Definition exclude_fields : list string :=
  ["created_by"; "updated_by"; "updated_at"; "status_id"].

(** [class SQLOperators(str, Enum)]; [_in] is the member named [_in]. *)
Inductive SQLOperators : Type := eq | ilike | _in | gte | lte | gt | lt.

Definition SQLOperators_value (op : SQLOperators) : string :=
  match op with
  | eq => "eq"
  | ilike => "ilike"
  | _in => "in"
  | gte => "gte"
  | lte => "lte"
  | gt => "gt"
  | lt => "lt"
  end.

Definition SQLOperators_members : list SQLOperators :=
  [eq; ilike; _in; gte; lte; gt; lt].

(** [s == SQLOperators.m]: the enum is a [str] subclass, so the comparison
    is string equality with the member's value. *)
Definition is_operator (s : string) (op : SQLOperators) : bool :=
  String.eqb s (SQLOperators_value op).

Record PaginationParams : Type := {
  page : Z;
  per_page : Z
}.

(** [Field(default=1, ge=1)] and [Field(default=50, ge=1, le=1000)] *)
Definition PaginationParams_valid (p : PaginationParams) : bool :=
  ((1 <=? page p) && (1 <=? per_page p) && (per_page p <=? 1000))%Z.

Definition PaginationParams_new (page per_page : option Z) : PaginationParams :=
  {| page := match page with Some p => p | None => 1%Z end;
     per_page := match per_page with Some p => p | None => 50%Z end |}.

Record CommonQueryParams : Type := {
  status : Status;
  sort : option string;
  pagination : PaginationParams
}.

(** Construction from the query string: an absent [status] is
    [Status.active], an absent [sort] is [None]. *)
Definition CommonQueryParams_new (status : option Status) (sort : option string)
           (pagination : PaginationParams) : CommonQueryParams :=
  {| status := match status with Some s => s | None => active end;
     sort := sort;
     pagination := pagination |}.

(** ** Table models *)

(** The SQLAlchemy type classes that key [TYPE_OPERATORS] and
    [type_mapping]. *)
Inductive SqlClass : Type := String_ | AutoString | Integer | Float | DateTime | Boolean.

(** A column type, seen through [isinstance] against those six classes:
    an instance of one of them (possibly of a subclass of it), or of none. *)
Inductive SqlType : Type :=
| Instance (cls : SqlClass)
| Unmapped (type_name : string).

Definition SqlClass_eqb (a b : SqlClass) : bool :=
  match a, b with
  | String_, String_ | AutoString, AutoString | Integer, Integer
  | Float, Float | DateTime, DateTime | Boolean, Boolean => true
  | _, _ => false
  end.

Definition isinstance (t : SqlType) (cls : SqlClass) : bool :=
  match t with
  | Instance c => SqlClass_eqb c cls
  | Unmapped _ => false
  end.

(** A table model class: its name and [inspect(model).columns]. *)
Record Model : Type := {
  __name__ : string;
  columns : list (string * SqlType)
}.

(** [getattr(model_db, name, None)] restricted to column attributes: the
    attribute of a column carries the name of the column, and a name that
    is no column is taken to be no attribute of the class at all. The other
    attributes of a class ([__tablename__], [metadata], its methods) are
    not described by [Model]. A column attribute is truthy; [None] is not. *)
Definition getattr (model_db : Model) (name : string) : option string :=
  if str_in name (map fst (columns model_db)) then Some name else None.

(** ** [filter_generator.FilterGenerator] *)

Inductive PyType : Type := py_str | py_int | py_float | py_datetime | py_bool.

Definition PyType_eqb (a b : PyType) : bool :=
  match a, b with
  | py_str, py_str | py_int, py_int | py_float, py_float
  | py_datetime, py_datetime | py_bool, py_bool => true
  | _, _ => false
  end.

Definition TYPE_OPERATORS : list (SqlClass * list string) :=
  [ (String_, ["eq"; "like"; "in"]);
    (AutoString, ["eq"; "like"; "in"]);
    (Integer, ["eq"; "in"]);
    (Float, ["eq"]);
    (DateTime, ["gte"; "lte"; "gt"; "lt"]);
    (Boolean, ["eq"]) ].

Definition OPERATOR_MAPPING : dict string :=
  [ ("eq", "");
    ("like", "__ilike");
    ("gt", "__gt");
    ("gte", "__gte");
    ("lt", "__lt");
    ("lte", "__lte");
    ("in", "__in") ].

(** [for cls, x in table.items(): if isinstance(t, cls): return x] followed
    by [return default]. *)
Fixpoint first_isinstance {A : Type} (t : SqlType) (table : list (SqlClass * A))
         (default : A) : A :=
  match table with
  | [] => default
  | (cls, x) :: rest => if isinstance t cls then x else first_isinstance t rest default
  end.

Definition _get_python_type (sqlalchemy_type : SqlType) : PyType :=
  let type_mapping :=
    [ (String_, py_str); (AutoString, py_str); (Integer, py_int);
      (Float, py_float); (DateTime, py_datetime); (Boolean, py_bool) ] in
  first_isinstance sqlalchemy_type type_mapping py_str.

Definition _get_operators_for_type (sqlalchemy_type : SqlType) : list string :=
  first_isinstance sqlalchemy_type TYPE_OPERATORS ["eq"].

(** [fields[column.name] = column.type] for every column not excluded. *)
Definition _get_model_fields (model_class : Model) (exclude_fields : list string)
  : dict SqlType :=
  fold_left
    (fun fields column =>
       if negb (str_in (fst column) exclude_fields)
       then dict_set fields (fst column) (snd column)
       else fields)
    (columns model_class) [].

(** One statement of the generated function body. *)
Inductive FilterStmt : Type :=
| WhenTruthyLike (param_name fastcrud_key : string)
    (* if p: filters[key] = f'%{p}%' *)
| WhenTruthyIn (param_name fastcrud_key : string) (to_int : bool)
    (* if p: try: filters[key] = [int(x.strip()) for x in p.split(',')]
             except ValueError: pass
       ([x.strip() ...] when the column is not an integer column) *)
| WhenNotNone (param_name fastcrud_key : string).
    (* if p is not None: filters[key] = p *)

(** The type hint of a generated parameter, [Optional[hint]]. *)
Record GeneratedFunction : Type := {
  function_params : list (string * PyType);
  function_body : list FilterStmt
}.

Definition param_name_of (field_name operator : string) : string :=
  ("filter_" ++ field_name ++ "_" ++ operator)%string.

(** [d[k]], which raises [KeyError] on a missing key. *)
Definition dict_index {V : Type} (d : dict V) (k : string) : Result V :=
  match dict_get d k with
  | Some v => Ok v
  | None => Raise KeyError
  end.

Definition is_in_operator (operator : string) : bool :=
  String.eqb operator "in" || String.eqb operator "not_in".

(** The first pass of [generate_filter_function]: one parameter per
    (column, operator) pair. Alias and description only feed the API
    documentation. *)
Definition generate_params (model_fields : dict SqlType) : list (string * PyType) :=
  flat_map
    (fun field =>
       let python_type := _get_python_type (snd field) in
       map (fun operator =>
              (param_name_of (fst field) operator,
               if is_in_operator operator then py_str else python_type))
           (_get_operators_for_type (snd field)))
    model_fields.

(** The second pass, for one (column, operator) pair. *)
Definition generate_stmt (field_name : string) (field_type : SqlType)
           (operator : string) : Result FilterStmt :=
  let param_name := param_name_of field_name operator in
  suffix <- dict_index OPERATOR_MAPPING operator ;;
  let fastcrud_key := (field_name ++ suffix)%string in
  if String.eqb operator "like" then Ok (WhenTruthyLike param_name fastcrud_key)
  else if is_in_operator operator then
    Ok (WhenTruthyIn param_name fastcrud_key
          (PyType_eqb (_get_python_type field_type) py_int))
  else Ok (WhenNotNone param_name fastcrud_key).

Definition generate_body (model_fields : dict SqlType) : Result (list FilterStmt) :=
  for_each
    (fun body field =>
       for_each
         (fun body operator =>
            stmt <- generate_stmt (fst field) (snd field) operator ;;
            Ok (body ++ [stmt]))
         (_get_operators_for_type (snd field)) body)
    model_fields [].

(** The function is built as source text and handed to [exec]; what is
    kept here is the parameter list and the statements of that text. That
    [exec] compiles the text is not part of the definition: it does when
    the column names are identifiers, which the statements that depend on
    it assume. *)
Definition generate_filter_function (model_class : Model) (exclude_fields : list string)
  : Result GeneratedFunction :=
  let model_fields := _get_model_fields model_class exclude_fields in
  body <- generate_body model_fields ;;
  Ok {| function_params := generate_params model_fields; function_body := body |}.

Definition create_filter_dependency := generate_filter_function.

(** The value bound to a parameter: the caller's, or the [Query(None)]
    default. *)
Definition argument (kwargs : dict Value) (param_name : string) : Value :=
  match dict_get kwargs param_name with
  | Some v => v
  | None => VNone
  end.

(** A parameter declared [Optional[str]]: the framework binds a [str] or
    [None] and nothing else. *)
Definition str_argument (kwargs : dict Value) (param_name : string) : option string :=
  match argument kwargs param_name with
  | VStr s => Some s
  | _ => None
  end.

(** [try: body except ValueError: pass], where [pass] leaves [unchanged]. *)
Definition except_ValueError_pass {A : Type} (body : Result A) (unchanged : A)
  : Result A :=
  match body with
  | Raise ValueError => Ok unchanged
  | other => other
  end.

Definition run_stmt (kwargs : dict Value) (filters : dict Value) (stmt : FilterStmt)
  : Result (dict Value) :=
  match stmt with
  | WhenTruthyLike p key =>
      match str_argument kwargs p with
      | Some s =>
          if PyStr.truthy s
          then Ok (dict_set filters key (VStr ("%" ++ s ++ "%")%string))
          else Ok filters
      | None => Ok filters
      end
  | WhenTruthyIn p key to_int =>
      match str_argument kwargs p with
      | Some s =>
          if PyStr.truthy s then
            except_ValueError_pass
              (items <- comprehension
                          (fun x =>
                             if to_int
                             then z <- PyStr.int (PyStr.strip x) ;; Ok (VInt z)
                             else Ok (VStr (PyStr.strip x)))
                          (PyStr.split s ",") ;;
               Ok (dict_set filters key (VList items)))
              filters
          else Ok filters
      | None => Ok filters
      end
  | WhenNotNone p key =>
      let v := argument kwargs p in
      if negb (is_none v) then Ok (dict_set filters key v) else Ok filters
  end.

(** Calling the generated function: [filters = {}], the generated
    statements in order, [return filters]. *)
Definition generated_filter_function (f : GeneratedFunction) (kwargs : dict Value)
  : Result (dict Value) :=
  for_each (run_stmt kwargs) (function_body f) [].

(** The dependency as the list endpoint resolves it. *)
Definition collect (model_class : Model) (kwargs : dict Value) : Result (dict Value) :=
  f <- create_filter_dependency model_class exclude_fields ;;
  generated_filter_function f kwargs.

(** [models.City]; [status_id] is an [Enum] column, and [Enum] is a
    subclass of [String]. *)
Definition City : Model :=
  {| __name__ := "City";
     columns := [ ("name", Instance AutoString); ("region_id", Instance Integer);
                  ("id", Instance Integer); ("created_at", Instance DateTime);
                  ("created_by", Instance Integer); ("updated_at", Instance DateTime);
                  ("updated_by", Instance Integer); ("status_id", Instance String_) ] |}.

(** ** Select statements *)

(** What a [where]/[filter] call can receive here. *)
Inductive Criterion : Type :=
| StatusEq (s : Status)      (* model_db.status_id == s *)
| StatusNe (s : Status)      (* model_db.status_id != s *)
| IdEq (i : Z)               (* model_db.id == i *)
| Compare (op : SQLOperators) (column : string) (v : Value)
                             (* column == v, column.ilike(v), column.in_(v),
                                column >= v, column <= v, column > v, column < v *)
| Const (b : bool).          (* a plain Python bool *)

Inductive OrderClause : Type :=
| asc (column : string)
| desc (column : string).

Record Statement : Type := {
  whereclause : list Criterion;
  order_by_clauses : list OrderClause;
  offset_clause : option Z;
  limit_clause : option Z
}.

(** [select(model_db)] *)
Definition select : Statement :=
  {| whereclause := []; order_by_clauses := [];
     offset_clause := None; limit_clause := None |}.

(** [statement.where(c)], also spelled [statement.filter(c)]: criteria
    accumulate and are joined by AND. *)
Definition where_ (statement : Statement) (c : Criterion) : Statement :=
  {| whereclause := whereclause statement ++ [c];
     order_by_clauses := order_by_clauses statement;
     offset_clause := offset_clause statement;
     limit_clause := limit_clause statement |}.

Definition order_by (statement : Statement) (o : OrderClause) : Statement :=
  {| whereclause := whereclause statement;
     order_by_clauses := order_by_clauses statement ++ [o];
     offset_clause := offset_clause statement;
     limit_clause := limit_clause statement |}.

Definition offset (statement : Statement) (n : Z) : Statement :=
  {| whereclause := whereclause statement;
     order_by_clauses := order_by_clauses statement;
     offset_clause := Some n;
     limit_clause := limit_clause statement |}.

Definition limit (statement : Statement) (n : Z) : Statement :=
  {| whereclause := whereclause statement;
     order_by_clauses := order_by_clauses statement;
     offset_clause := offset_clause statement;
     limit_clause := Some n |}.

(** ** [params_funcs] *)

Definition set_status (statement : Statement) (model_db : Model) (status : Status)
  : Statement :=
  where_ statement (StatusEq status).

(** [v.isoformat()]: only a [datetime] has the method. *)
Definition isoformat (v : Value) : Result string :=
  match v with
  | VDatetime iso => Ok iso
  | _ => Raise AttributeError
  end.

(** [column == v] with [column] possibly [None]: on [None] it is the
    Python comparison [None == v], a bool. *)
Definition column_eq (column : option string) (v : Value) : Criterion :=
  match column with
  | Some c => Compare eq c v
  | None => Const (is_none v)
  end.

(** [column.ilike(v)] and [column.in_(v)]: [None] has no such attribute.
    On a column, [in_] takes a list and refuses any other value here with
    SQLAlchemy's [ArgumentError]. *)
Definition column_method (op : SQLOperators) (column : option string) (v : Value)
  : Result Criterion :=
  match column with
  | Some c =>
      match op, v with
      | _in, VList _ => Ok (Compare op c v)
      | _in, _ => Raise ArgumentError
      | _, _ => Ok (Compare op c v)
      end
  | None => Raise AttributeError
  end.

(** [column >= v] and the like: [None] is unorderable. A column is ordered
    against any value but [None], [True] and [False], which SQLAlchemy
    takes with [==] and [!=] only ([ArgumentError]). *)
Definition column_order (op : SQLOperators) (column : option string) (v : Value)
  : Result Criterion :=
  match column with
  | Some c =>
      match v with
      | VNone | VBool _ => Raise ArgumentError
      | _ => Ok (Compare op c v)
      end
  | None => Raise TypeError
  end.

(** The first loop of [set_filters], which fills [new_dict]. *)
Definition copy_filter (new_dict : dict Value) (item : string * Value)
  : Result (dict Value) :=
  let '(k, v) := item in
  if PyStr.startswith k "created_at"
  then s <- isoformat v ;; Ok (dict_set new_dict k (VStr s))
  else Ok (dict_set new_dict k v).

(** The body of the second loop of [set_filters]. *)
Definition apply_filter (model_db : Model) (statement : Statement)
           (item : string * Value) : Result Statement :=
  let '(k, v) := item in
  let elems := PyStr.split k "__" in
  let begin := nth 0 elems "" in
  let end_ := if (1 <? length elems)%nat then nth 1 elems ""
              else SQLOperators_value eq in
  let column := getattr model_db begin in
  (* if not column: HTTPException(status_code=400, ...) -- built, not raised *)
  let _unraised := match column with
                   | None => Some (HTTPException 400)
                   | Some _ => None
                   end in
  if is_operator end_ eq then
    Ok (where_ statement (column_eq column v))
  else if is_operator end_ ilike then
    condition <- column_method ilike column v ;; Ok (where_ statement condition)
  else if is_operator end_ _in then
    condition <- column_method _in column v ;; Ok (where_ statement condition)
  else if is_operator end_ gte then
    condition <- column_order gte column v ;; Ok (where_ statement condition)
  else if is_operator end_ lte then
    condition <- column_order lte column v ;; Ok (where_ statement condition)
  else if is_operator end_ gt then
    condition <- column_order gt column v ;; Ok (where_ statement condition)
  else if is_operator end_ lt then
    condition <- column_order lt column v ;; Ok (where_ statement condition)
  else Raise (HTTPException 422).

Definition set_filters (statement : Statement) (model_db : Model)
           (filters : dict Value) : Result Statement :=
  match filters with
  | [] => Ok statement
  | _ =>
      new_dict <- for_each copy_filter filters [] ;;
      for_each (apply_filter model_db) filters statement
  end.

(** [sort_columns: str | list[str]] and [sort_orders: str | list[str]] *)
Inductive StrOrList : Type :=
| Str (s : string)
| StrList (l : list string).

Definition StrOrList_truthy (x : StrOrList) : bool :=
  match x with
  | Str s => PyStr.truthy s
  | StrList l => match l with [] => false | _ => true end
  end.

Definition apply_sorting (statement : Statement) (model_db : Model)
           (sort_columns : StrOrList) (sort_orders : option StrOrList)
  : Result Statement :=
  let orders_given := match sort_orders with
                      | Some o => StrOrList_truthy o
                      | None => false
                      end in
  if orders_given && negb (StrOrList_truthy sort_columns) then Raise ValueError
  else if StrOrList_truthy sort_columns then
    let sort_columns := match sort_columns with
                        | StrList l => l
                        | Str s => [s]
                        end in
    validated_sort_orders <-
      match sort_orders with
      | Some o =>
          if StrOrList_truthy o then
            let sort_orders := match o with
                               | StrList l => l
                               | Str s => repeat s (length sort_columns)
                               end in
            if negb (length sort_columns =? length sort_orders)%nat
            then Raise ValueError
            else
              _ <- for_each
                     (fun (_ : unit) order =>
                        if negb (str_in order ["asc"; "desc"])
                        then Raise ValueError else Ok tt)
                     sort_orders tt ;;
              Ok sort_orders
          else Ok (repeat "asc" (length sort_columns))
      | None => Ok (repeat "asc" (length sort_columns))
      end ;;
    for_each
      (fun statement (item : nat * string) =>
         let '(idx, column_name) := item in
         match getattr model_db column_name with
         | None => Raise ArgumentError
         | Some column =>
             let order := nth idx validated_sort_orders "" in
             Ok (order_by statement
                   (if String.eqb order "asc" then asc column else desc column))
         end)
      (combine (seq 0 (length sort_columns)) sort_columns) statement
  else Ok statement.

(** An argument passed by keyword. *)
Inductive Arg : Type :=
| AStatement (s : Statement)
| AModel (m : Model)
| AStrOrList (x : StrOrList).

(** [def apply_sorting(statement, model_db, sort_columns, sort_orders=None)] *)
Definition apply_sorting_parameters : list string :=
  ["statement"; "model_db"; "sort_columns"; "sort_orders"].

(** A call of [apply_sorting] with keyword arguments only: a keyword that
    is not a parameter, or a required parameter left unbound, is a
    [TypeError] raised before the body runs. *)
Definition call_apply_sorting (keywords : list (string * Arg)) : Result Statement :=
  if negb (forallb (fun kw => str_in (fst kw) apply_sorting_parameters) keywords)
  then Raise TypeError
  else
    match dict_get keywords "statement", dict_get keywords "model_db",
          dict_get keywords "sort_columns" with
    | Some (AStatement statement), Some (AModel model_db), Some (AStrOrList sort_columns) =>
        apply_sorting statement model_db sort_columns
          match dict_get keywords "sort_orders" with
          | Some (AStrOrList o) => Some o
          | _ => None
          end
    | _, _, _ => Raise TypeError
    end.

Definition set_sorting (statement : Statement) (model_db : Model) (sort : option string)
  : Result Statement :=
  match sort with
  | None => Ok statement
  | Some s =>
      let '(sort_columns, sort_orders) :=
        if PyStr.truthy s then parse_sort_string s else ([], []) in
      call_apply_sorting
        [ ("stmt", AStatement statement);
          ("model_db", AModel model_db);
          ("sort_columns", AStrOrList (StrList sort_columns));
          ("sort_orders", AStrOrList (StrList sort_orders)) ]
  end.

(** ** The storage layer *)

(** A persisted row: primary key, lifecycle status (a nullable column),
    and the remaining columns by name. *)
Record Row : Type := {
  id : Z;
  status_id : option Status;
  fields : dict Value
}.

(** A session on one table. How a column comparison evaluates on a row and
    how ORDER BY arranges rows belong to the database, so they are
    components of the session. *)
Record Session : Type := {
  table : list Row;
  compare : SQLOperators -> string -> Value -> Row -> bool;
  arrange : list OrderClause -> list Row -> list Row
}.

Definition with_table (session : Session) (rows : list Row) : Session :=
  {| table := rows; compare := compare session; arrange := arrange session |}.

(** SQL truth of one criterion on a row; a comparison with NULL is not
    true. *)
Definition holds (session : Session) (row : Row) (c : Criterion) : bool :=
  match c with
  | StatusEq s =>
      match status_id row with
      | Some s' => Status_eqb s' s
      | None => false
      end
  | StatusNe s =>
      match status_id row with
      | Some s' => negb (Status_eqb s' s)
      | None => false
      end
  | IdEq i => (id row =? i)%Z
  | Compare op column v => compare session op column v row
  | Const b => b
  end.

Definition selected (session : Session) (statement : Statement) : list Row :=
  filter (fun row => forallb (holds session row) (whereclause statement))
         (table session).

Definition ordered (session : Session) (statement : Statement) (rows : list Row)
  : list Row :=
  match order_by_clauses statement with
  | [] => rows
  | clauses => arrange session clauses rows
  end.

Definition window (statement : Statement) (rows : list Row) : list Row :=
  let rows := match offset_clause statement with
              | Some n => skipn (Z.to_nat n) rows
              | None => rows
              end in
  match limit_clause statement with
  | Some n => firstn (Z.to_nat n) rows
  | None => rows
  end.

(** [session.exec(statement).all()] *)
Definition exec_all (session : Session) (statement : Statement) : list Row :=
  window statement (ordered session statement (selected session statement)).

(** [session.exec(statement).first()] *)
Definition exec_first (session : Session) (statement : Statement) : option Row :=
  hd_error (exec_all session statement).

(** [session.exec(select(func.count()).select_from(statement)).one()] *)
Definition exec_count (session : Session) (statement : Statement) : Z :=
  Z.of_nat (length (exec_all session statement)).

(** [session.get(model_db, id)]: lookup by primary key, for a key the
    key column can hold. (Beyond the integers of the database the lookup is
    refused instead; the statements about the errors of an endpoint take
    the key within them.) *)
Definition session_get (session : Session) (i : Z) : option Row :=
  find (fun row => (id row =? i)%Z) (table session).

(** [session.add(row); session.commit(); session.refresh(row)] for a row
    loaded from this session: the row with that primary key is replaced. *)
Definition persist (session : Session) (row : Row) : Session :=
  with_table session
    (map (fun old => if (id old =? id row)%Z then row else old) (table session)).

Record PaginatedResponse : Type := {
  data : list Row;
  resp_page : Z;
  resp_per_page : Z;
  total_records : Z;
  pages : Z
}.

(** [a // b] *)
Definition floordiv (a b : Z) : Result Z :=
  if (b =? 0)%Z then Raise ZeroDivisionError else Ok (a / b)%Z.

(** The integers the database takes as OFFSET and as LIMIT: the signed
    64-bit integers that are not negative. (PostgreSQL refuses a negative
    one; SQLite reads it as absent. The endpoints never pass one.) *)
Definition row_count (n : Z) : bool := ((0 <=? n) && (n <? 2 ^ 63))%Z.

(** [session.exec(statement).all()] on a statement whose offset and limit
    come from the caller: the statement is refused when one of them is not
    such an integer. *)
Definition exec_paged (session : Session) (statement : Statement)
  : Result (list Row) :=
  let taken clause := match clause with
                      | Some n => row_count n
                      | None => true
                      end in
  if taken (offset_clause statement) && taken (limit_clause statement)
  then Ok (exec_all session statement)
  else Raise DataError.

Definition set_offset_limit (session : Session) (pagination : PaginationParams)
           (model_db : Model) (statement : Statement) : Result PaginatedResponse :=
  let total := exec_count session statement in
  pages <- floordiv (total + per_page pagination - 1) (per_page pagination) ;;
  let offset_ := ((page pagination - 1) * per_page pagination)%Z in
  let statement := limit (offset statement offset_) (per_page pagination) in
  result <- exec_paged session statement ;;
  Ok {| data := result;
        resp_page := page pagination;
        resp_per_page := per_page pagination;
        total_records := total;
        pages := pages |}.

(** ** [generator.EndpointGenerator] *)

Definition _get_one (session : Session) (i : Z) : Result Row :=
  match session_get session i with
  | None => Raise (HTTPException 403)
  | Some model_db => Ok model_db
  end.

(** The statement the list endpoint composes before paging. *)
Definition compose_list (model_db : Model) (query_params : CommonQueryParams)
           (filters : dict Value) : Result Statement :=
  let statement := select in
  let statement := set_status statement model_db (status query_params) in
  statement <- set_filters statement model_db filters ;;
  set_sorting statement model_db (sort query_params).

Definition _get_list (model_db : Model) (session : Session)
           (query_params : CommonQueryParams) (filters : dict Value)
  : Result PaginatedResponse :=
  statement <- compose_list model_db query_params filters ;;
  set_offset_limit session (pagination query_params) model_db statement.

(** [model_db.sqlmodel_update(update_data)]: the update model carries no
    [id] and no [status_id], so only the other columns change. *)
Definition sqlmodel_update (row : Row) (update_data : dict Value) : Row :=
  {| id := id row;
     status_id := status_id row;
     fields := fold_left (fun d kv => dict_set d (fst kv) (snd kv))
                         update_data (fields row) |}.

(** [accepted] stands for the database constraints checked at commit. *)
Definition _update_one (accepted : Row -> bool) (session : Session)
           (update_data : dict Value) (i : Z) : Result (Row * Session) :=
  match session_get session i with
  | None => Raise (HTTPException 403)
  | Some model_db =>
      let model_db := sqlmodel_update model_db update_data in
      if accepted model_db
      then Ok (model_db, persist session model_db)
      else Raise (HTTPException 422)
  end.

Definition set_status_id (row : Row) (s : Status) : Row :=
  {| id := id row; status_id := Some s; fields := fields row |}.

Definition _delete_one (session : Session) (i : Z) : Result (Row * Session) :=
  match exec_first session (where_ (where_ select (IdEq i)) (StatusNe deleted)) with
  | None => Raise (HTTPException 404)
  | Some model_db =>
      let model_db := set_status_id model_db deleted in
      Ok (model_db, persist session model_db)
  end.

Definition _restore_one (session : Session) (i : Z) : Result (Row * Session) :=
  match exec_first session (where_ (where_ select (IdEq i)) (StatusEq deleted)) with
  | None => Raise (HTTPException 404)
  | Some model_db =>
      let model_db := set_status_id model_db active in
      Ok (model_db, persist session model_db)
  end.

(** ** Statements of the specification, for comparison *)

Inductive Direction : Type := ascending | descending.

(** The directive of one trimmed token: nothing when empty; a leading
    minus marks descending and is removed before the column name is taken;
    nothing when no name is left. *)
Definition directive_of_field (field : string) : list (string * Direction) :=
  match field with
  | EmptyString => []
  | String c rest =>
      if Ascii.eqb c "-" then
        match PyStr.strip rest with
        | EmptyString => []
        | name => [(name, descending)]
        end
      else [(String c rest, ascending)]
  end.

Definition directive_of_token (token : string) : list (string * Direction) :=
  directive_of_field (PyStr.strip token).

Definition parse_directives (s : string) : list (string * Direction) :=
  flat_map directive_of_token (PyStr.split s ",").

Definition direction_of (order : string) : Direction :=
  if String.eqb order "asc" then ascending else descending.

(** The directive list that [parse_sort_string] denotes. *)
Definition directives (parsed : list string * list string)
  : list (string * Direction) :=
  combine (fst parsed) (map direction_of (snd parsed)).

(** The operators of the data model. *)
Definition global_operators : list string :=
  ["eq"; "like"; "gte"; "lte"; "gt"; "lt"; "in"].


(** ** Sample data *)

Definition plain_session (rows : list Row) : Session :=
  {| table := rows;
     compare := fun _ _ _ _ => true;
     arrange := fun _ rows => rows |}.

Definition row_of (i : Z) (s : Status) : Row :=
  {| id := i; status_id := Some s; fields := [("name", VStr "n")] |}.

(** ** Vocabulary for the statements *)

(** [elems[0]] and the operator [set_filters] reads from a key. *)
Definition key_column (k : string) : string := nth 0 (PyStr.split k "__") "".

Definition key_operator (k : string) : string :=
  let elems := PyStr.split k "__" in
  if (1 <? length elems)%nat then nth 1 elems "" else SQLOperators_value eq.

Definition supported_operator (s : string) : bool :=
  existsb (is_operator s) SQLOperators_members.

(** The key a generated statement writes. *)
Definition stmt_key (stmt : FilterStmt) : string :=
  match stmt with
  | WhenTruthyLike _ key | WhenTruthyIn _ key _ | WhenNotNone _ key => key
  end.

(** A statement comes from a column of the model and one of the operators
    of its type. *)
Definition from_field (fields : dict SqlType) (stmt : FilterStmt) : Prop :=
  exists f t op,
    In (f, t) fields /\ In op (_get_operators_for_type t)
    /\ generate_stmt f t op = Ok stmt.

Definition generated_keys (model_class : Model) : list string :=
  match create_filter_dependency model_class exclude_fields with
  | Ok f => map stmt_key (function_body f)
  | Raise _ => []
  end.

Fixpoint distinct (xs : list string) : bool :=
  match xs with
  | [] => true
  | x :: rest => negb (str_in x rest) && distinct rest
  end.

(** No two parameters of the model write the same key. *)
Definition keys_distinct (model_class : Model) : bool :=
  distinct (generated_keys model_class).

(** Every underscore of the name is followed by a character other than an
    underscore: the name holds no double underscore and does not end in
    one. *)
Fixpoint plain_name (s : string) : bool :=
  match s with
  | EmptyString => true
  | String c rest =>
      (negb (Ascii.eqb c "_")
       || match rest with
          | String d _ => negb (Ascii.eqb d "_")
          | EmptyString => false
          end)
      && plain_name rest
  end.

Definition plain_columns (model_class : Model) : bool :=
  forallb plain_name (map fst (columns model_class)).

Definition unique_ids (rows : list Row) : Prop := NoDup (map id rows).

(** The ordering clause of a (column, order) pair. *)
Definition order_clause (item : string * string) : OrderClause :=
  if String.eqb (snd item) "asc" then asc (fst item) else desc (fst item).

Definition known_column (model_db : Model) (name : string) : Prop :=
  getattr model_db name = Some name.

(** The keys a create or update body carries: columns of the table model
    other than the primary key and the status, which [Row] keeps apart and
    which the create and update models of the repository do not have. *)
Definition data_column (model_db : Model) (k : string) : Prop :=
  known_column model_db k /\ k <> "id" /\ k <> "status_id".

(** A table model with a column whose name ends in an underscore. *)
Definition Tagged : Model :=
  {| __name__ := "Tagged";
     columns := [ ("id", Instance Integer); ("type_", Instance AutoString);
                  ("status_id", Instance String_) ] |}.


(** ** [params_funcs]: the remaining helpers *)

(** [get_model_fields]: the names of the columns not excluded, in column
    order. The inspector of a mapped class is never falsy. *)
Definition get_model_fields (model_db : Model) (exclude_fields : list string)
  : list string :=
  fold_left
    (fun fields column =>
       if negb (str_in (fst column) exclude_fields)
       then fields ++ [fst column]
       else fields)
    (columns model_db) [].

(** [str.lower] on one code point below 256: the letters A to Z and the
    capital letters of Latin-1 (all of 192..222 but the multiplication
    sign) move up by 32. *)
Definition lower_char (c : ascii) : ascii :=
  let n := nat_of_ascii c in
  if ((65 <=? n) && (n <=? 90)
      || (192 <=? n) && (n <=? 222) && negb (n =? 215))%nat
  then ascii_of_nat (n + 32)
  else c.

Fixpoint lower (s : string) : string :=
  match s with
  | EmptyString => EmptyString
  | String c rest => String (lower_char c) (lower rest)
  end.

Definition get_prefix (model_db : Model) : string :=
  let endpoint_name := lower (__name__ model_db) in
  ("/" ++ endpoint_name)%string.

Definition get_tags (model_db : Model) : list string :=
  let endpoint_name := lower (__name__ model_db) in
  [endpoint_name].

(** ** [api_models.GeneralAction] and the router *)

Inductive GeneralAction : Type := VIEW | LIST | CREATE | UPDATE | DELETE | RESTORE.


Inductive ResponseModel : Type := model_public | model_public_with_pagination.

(** What [add_api_route] receives; the dependency lists are opaque to the
    generator and left out. *)
Record Route : Type := {
  route_path : string;
  endpoint : GeneralAction;
  methods : list string;
  route_tags : list string;
  response_model : ResponseModel;
  operation_id : string;
  description : string
}.

Record APIRouter : Type := {
  router_prefix : string;
  router_tags : list string;
  routes : list Route
}.


(** ** [generator.EndpointGenerator]: construction and routes *)

Record EndpointGenerator : Type := {
  self_path : string;
  self_tags : list string;
  self_model_db : Model;
  self_included_actions : list string;
  self_deleted_actions : list string;
  self_router : APIRouter
}.


(** [s.endswith(p)] *)
Definition endswith (s p : string) : bool :=
  let n := String.length s in
  let m := String.length p in
  (m <=? n)%nat && String.eqb (substring (n - m) m s) p.

(** [APIRouter(prefix=prefix, tags=tags)]: a prefix that is not empty must
    start with a slash and must not end with one. *)
Definition APIRouter_new (prefix : string) (tags : list string) : Result APIRouter :=
  if PyStr.truthy prefix
     && (negb (PyStr.startswith prefix "/") || endswith prefix "/")
  then Raise AssertionError
  else Ok {| router_prefix := prefix; router_tags := tags; routes := [] |}.

(** [__init__]: [path if path else ...], [tags if tags else ...],
    [router if router else APIRouter(prefix=self.path, tags=self.tags)]. *)
Definition EndpointGenerator_init (path : option string) (tags : option (list string))
           (router : option APIRouter) (model_db : Model)
           (included_actions deleted_actions : list string)
  : Result EndpointGenerator :=
  let endpoint_name := lower (__name__ model_db) in
  let path := match path with
              | Some p => if PyStr.truthy p then p else ("/" ++ endpoint_name)%string
              | None => ("/" ++ endpoint_name)%string
              end in
  let tags := match tags with
              | Some (t :: ts) => t :: ts
              | _ => [endpoint_name]
              end in
  router <- match router with
            | Some r => Ok r
            | None => APIRouter_new path tags
            end ;;
  Ok {| self_path := path;
        self_tags := tags;
        self_model_db := model_db;
        self_included_actions := included_actions;
        self_deleted_actions := deleted_actions;
        self_router := router |}.








(** ** More vocabulary *)

(** The parameter a generated statement reads. *)
Definition stmt_param (stmt : FilterStmt) : string :=
  match stmt with
  | WhenTruthyLike p _ | WhenTruthyIn p _ _ | WhenNotNone p _ => p
  end.

(** The (column, type, operator) triples of a model, in generation order. *)
Definition field_operators (fields : dict SqlType)
  : list (string * SqlType * string) :=
  flat_map
    (fun field => map (fun operator => (fst field, snd field, operator))
                      (_get_operators_for_type (snd field)))
    fields.

(** The statement and the parameter generated for one triple. *)
Definition statement_for (triple : string * SqlType * string) : FilterStmt :=
  let '(f, t, op) := triple in
  let param_name := param_name_of f op in
  let fastcrud_key :=
    (f ++ match dict_get OPERATOR_MAPPING op with
          | Some suffix => suffix
          | None => ""
          end)%string in
  if String.eqb op "like" then WhenTruthyLike param_name fastcrud_key
  else if is_in_operator op then
    WhenTruthyIn param_name fastcrud_key (PyType_eqb (_get_python_type t) py_int)
  else WhenNotNone param_name fastcrud_key.

Definition parameter_for (triple : string * SqlType * string) : string * PyType :=
  let '(f, t, op) := triple in
  (param_name_of f op, if is_in_operator op then py_str else _get_python_type t).

Definition pair_of (triple : string * SqlType * string) : string * string :=
  (fst (fst triple), snd triple).

Definition not_excluded (excluded : list string) (column : string * SqlType) : bool :=
  negb (str_in (fst column) excluded).

(** The rows a query selects before any window is cut. *)
Definition matching (session : Session) (statement : Statement) : list Row :=
  ordered session statement (selected session statement).

Definition unwindowed (statement : Statement) : Prop :=
  offset_clause statement = None /\ limit_clause statement = None.

(** The envelope of a request the database takes. *)
Definition envelope (session : Session) (pagination : PaginationParams)
           (statement : Statement) : PaginatedResponse :=
  {| data := exec_all session
               (limit (offset statement ((page pagination - 1) * per_page pagination)%Z)
                      (per_page pagination));
     resp_page := page pagination;
     resp_per_page := per_page pagination;
     total_records := exec_count session statement;
     pages := ((exec_count session statement + per_page pagination - 1)
               / per_page pagination)%Z |}.

(** The request for page [k] (counted from 1) with [per_page] rows a page,
    and the rows it returns. *)
Definition page_request (session : Session) (model_db : Model) (statement : Statement)
           (per_page : Z) (k : nat) : Result PaginatedResponse :=
  set_offset_limit session {| page := Z.of_nat k; per_page := per_page |}
                   model_db statement.

Definition page_data (session : Session) (model_db : Model) (statement : Statement)
           (per_page : Z) (k : nat) : list Row :=
  match page_request session model_db statement per_page k with
  | Ok response => data response
  | Raise _ => []
  end.

(** The request is answered. *)
Definition answered {A : Type} (r : Result A) : Prop := exists a, r = Ok a.

(** A primary key that every database holds in an integer key column: a
    signed 32-bit integer. *)
Definition stored_key (i : Z) : Prop := (- 2 ^ 31 <= i < 2 ^ 31)%Z.

(** ASCII letters, digits and the underscore. A column name made of them
    is an identifier wherever the generated source places it, and is its
    own normal form, so the source compiles. *)
Definition word_char (c : ascii) : bool :=
  let n := nat_of_ascii c in
  ((48 <=? n) && (n <=? 57) || (65 <=? n) && (n <=? 90)
   || (97 <=? n) && (n <=? 122) || (n =? 95))%nat.

Definition word (s : string) : bool := forallb word_char (list_ascii_of_string s).

Definition word_columns (model_class : Model) (excluded : list string) : bool :=
  forallb word (dict_keys (_get_model_fields model_class excluded)).

Definition has_id (i : Z) (row : Row) : bool := (id row =? i)%Z.

(** A statement with ordering clauses added after its own. *)
Definition with_order (statement : Statement) (clauses : list OrderClause) : Statement :=
  {| whereclause := whereclause statement;
     order_by_clauses := order_by_clauses statement ++ clauses;
     offset_clause := offset_clause statement;
     limit_clause := limit_clause statement |}.

(** A statement with criteria added after its own. *)
Definition with_criteria (statement : Statement) (criteria : list Criterion) : Statement :=
  {| whereclause := whereclause statement ++ criteria;
     order_by_clauses := order_by_clauses statement;
     offset_clause := offset_clause statement;
     limit_clause := limit_clause statement |}.

(** The columns [apply_sorting] goes through. *)
Definition sort_column_list (sort_columns : StrOrList) : list string :=
  match sort_columns with
  | StrList l => l
  | Str s => if PyStr.truthy s then [s] else []
  end.

Definition valid_order (o : string) : Prop := o = "asc" \/ o = "desc".




(** A column name as the sort parser returns it: not empty, without
    surrounding whitespace, without a comma. *)
Definition clean_column (c : string) : Prop :=
  c <> "" /\ PyStr.strip c = c /\ ~ In ","%char (list_ascii_of_string c).



(** The comparison an entry stands for. *)
Definition comparison_of (item : string * Value) (c : Criterion) : Prop :=
  exists op,
    is_operator (key_operator (fst item)) op = true
    /\ c = Compare op (key_column (fst item)) (snd item).

(** * Properties *)

(** ** Strings *)

Module PyStrFacts.
Import PyStr.

Lemma split_from_nonempty (sep s : string) (skip : nat) :
  split_from sep s skip <> [].
Proof.
  revert skip. induction s as [|c rest IH]; intros skip; cbn [split_from].
  - discriminate.
  - destruct skip as [|k]; [|apply IH].
    destruct (prefix sep (String c rest)); [discriminate|].
    specialize (IH 0%nat). destruct (split_from sep rest 0); [congruence|].
    discriminate.
Qed.

Lemma push_head_app (c : ascii) (xs ys : list string) :
  xs <> [] -> push_head c (xs ++ ys) = push_head c xs ++ ys.
Proof. destruct xs; [congruence | reflexivity]. Qed.

Lemma prefix_empty (s : string) : prefix "" s = true.
Proof. destruct s; reflexivity. Qed.

Lemma prefix_single (a c : ascii) (rest : string) :
  prefix (String a "") (String c rest) = Ascii.eqb a c.
Proof.
  cbn [prefix]. destruct (ascii_dec a c) as [->|Hac].
  - rewrite Ascii.eqb_refl. apply prefix_empty.
  - symmetry. now apply Ascii.eqb_neq.
Qed.

(** [split] on a one-character separator, one character at a time. *)
Lemma split_single_cons (sep c : ascii) (rest : string) :
  split (String c rest) (String sep "") =
  if Ascii.eqb sep c then "" :: split rest (String sep "")
  else push_head c (split rest (String sep "")).
Proof.
  unfold split. cbn [split_from]. rewrite prefix_single. reflexivity.
Qed.

(** Splitting on a comma distributes over a comma. *)
Lemma split_comma_app (s1 s2 : string) :
  split (s1 ++ "," ++ s2) "," = split s1 "," ++ split s2 ",".
Proof.
  induction s1 as [|c rest IH].
  - change (("" ++ "," ++ s2)%string) with (String "," s2).
    rewrite split_single_cons. reflexivity.
  - change ((String c rest ++ "," ++ s2)%string)
      with (String c (rest ++ "," ++ s2)%string).
    rewrite !split_single_cons, IH.
    destruct (Ascii.eqb "," c); [reflexivity|].
    apply push_head_app, split_from_nonempty.
Qed.

Lemma rstrip_empty (s : string) : rstrip s = "" -> all_space s.
Proof.
  unfold all_space. induction s as [|c rest IH]; cbn [rstrip]; [reflexivity|].
  destruct (rstrip rest); [|discriminate].
  destruct (isspace c) eqn:Hc; [|discriminate].
  intros _. cbn. now rewrite Hc, IH.
Qed.

Lemma lstrip_all_space (s : string) : all_space (lstrip s) -> all_space s.
Proof.
  unfold all_space. induction s as [|c rest IH]; cbn [lstrip]; [trivial|].
  destruct (isspace c) eqn:Hc; [|trivial].
  intros H. cbn. now rewrite Hc, IH.
Qed.

Lemma strip_empty (s : string) : strip s = "" -> all_space s.
Proof. intros H. now apply lstrip_all_space, rstrip_empty. Qed.

Lemma all_space_strip (s : string) : all_space s -> strip s = "".
Proof.
  unfold all_space, strip. induction s as [|c rest IH]; [reflexivity|].
  cbn. destruct (isspace c); [|discriminate]. exact IH.
Qed.

(** A string of whitespace holds no comma. *)
Lemma all_space_split (s : string) : all_space s -> split s "," = [s].
Proof.
  unfold all_space. induction s as [|c rest IH]; [reflexivity|].
  cbn [list_ascii_of_string forallb]. intros H.
  apply andb_prop in H as [Hc Hrest].
  rewrite split_single_cons, (IH Hrest).
  destruct (Ascii.eqb_spec "," c) as [<-|_]; [discriminate Hc|reflexivity].
Qed.

End PyStrFacts.

(** ** Sort parser *)

Section SortParser.
Import PyStr PyStrFacts.

Lemma directives_snoc (cols ords : list string) (c o : string) :
  length cols = length ords ->
  directives (cols ++ [c], ords ++ [o]) = directives (cols, ords) ++ [(c, direction_of o)].
Proof.
  unfold directives. cbn [fst snd]. revert ords.
  induction cols as [|x cols IH]; intros [|y ords] Hlen; try discriminate Hlen.
  - reflexivity.
  - cbn. f_equal. apply IH. now injection Hlen.
Qed.

Lemma parse_sort_field_spec (acc : list string * list string) (field : string) :
  truthy field = true ->
  length (fst acc) = length (snd acc) ->
  length (fst (parse_sort_field acc field)) = length (snd (parse_sort_field acc field))
  /\ directives (parse_sort_field acc field) = directives acc ++ directive_of_field field.
Proof.
  destruct acc as [cols ords]. destruct field as [|c rest]; [discriminate|].
  intros _ Hlen. cbn [fst snd] in Hlen.
  unfold parse_sort_field, startswith. rewrite prefix_single.
  cbn [directive_of_field tail]. rewrite (Ascii.eqb_sym c "-").
  destruct (Ascii.eqb "-" c).
  - destruct (strip rest) as [|d name] eqn:Hname; cbn [truthy fst snd].
    + split; [exact Hlen | now rewrite app_nil_r].
    + split; [rewrite !length_app; cbn; lia | now apply directives_snoc].
  - cbn [fst snd]. split; [rewrite !length_app; cbn; lia | now apply directives_snoc].
Qed.

Lemma parse_fields_spec (fs : list string) (acc : list string * list string) :
  Forall (fun f => truthy f = true) fs ->
  length (fst acc) = length (snd acc) ->
  length (fst (fold_left parse_sort_field fs acc))
  = length (snd (fold_left parse_sort_field fs acc))
  /\ directives (fold_left parse_sort_field fs acc)
     = directives acc ++ flat_map directive_of_field fs.
Proof.
  revert acc. induction fs as [|f fs IH]; intros acc Hfs Hlen; cbn [fold_left flat_map].
  - split; [exact Hlen | now rewrite app_nil_r].
  - inversion Hfs as [|? ? Hf Hrest]; subst.
    destruct (parse_sort_field_spec acc f Hf Hlen) as [Hlen' Hdir].
    destruct (IH _ Hrest Hlen') as [Hl Hd].
    split; [exact Hl|]. now rewrite Hd, Hdir, <- app_assoc.
Qed.

Lemma sort_fields_truthy (s : string) :
  Forall (fun f => truthy f = true) (sort_fields s).
Proof.
  unfold sort_fields. apply Forall_forall. intros f Hf.
  apply in_map_iff in Hf as (t & <- & Ht). now apply filter_In in Ht.
Qed.

Lemma sort_fields_directives (tokens : list string) :
  flat_map directive_of_field
    (map strip (filter (fun field => truthy (strip field)) tokens))
  = flat_map directive_of_token tokens.
Proof.
  induction tokens as [|t tokens IH]; [reflexivity|].
  cbn [filter flat_map]. unfold directive_of_token at 1.
  destruct (strip t) as [|c rest] eqn:Ht; cbn [truthy].
  - exact IH.
  - cbn [map flat_map]. rewrite Ht, IH. reflexivity.
Qed.

(** The fold of the source computes the early-return value as well. *)
Lemma parse_sort_string_fold (s : string) :
  parse_sort_string s = fold_left parse_sort_field (sort_fields s) ([], []).
Proof.
  unfold parse_sort_string.
  destruct (negb (truthy s) || negb (truthy (strip s))) eqn:Hblank; [|reflexivity].
  assert (Hs : strip s = "").
  { destruct s as [|c rest]; [reflexivity|]. cbn [truthy negb orb] in Hblank.
    destruct (strip (String c rest)); [reflexivity | discriminate Hblank]. }
  unfold sort_fields. rewrite (all_space_split s (strip_empty s Hs)).
  cbn [filter]. rewrite Hs. reflexivity.
Qed.

Lemma parse_sort_string_spec (s : string) :
  length (fst (parse_sort_string s)) = length (snd (parse_sort_string s))
  /\ directives (parse_sort_string s) = parse_directives s.
Proof.
  rewrite parse_sort_string_fold.
  destruct (parse_fields_spec (sort_fields s) ([], []) (sort_fields_truthy s) eq_refl)
    as [Hlen Hdir].
  split; [exact Hlen|]. rewrite Hdir. cbn [directives fst snd combine app].
  apply sort_fields_directives.
Qed.

Lemma parse_sort_field_orders (acc : list string * list string) (field : string) :
  Forall (fun o => o = "asc" \/ o = "desc") (snd acc) ->
  Forall (fun o => o = "asc" \/ o = "desc") (snd (parse_sort_field acc field)).
Proof.
  destruct acc as [cols ords]. unfold parse_sort_field. intros H.
  destruct (startswith field "-").
  - destruct (truthy (strip (tail field))); cbn [snd]; [|exact H].
    apply Forall_app. split; [exact H | repeat constructor; now right].
  - cbn [snd]. apply Forall_app. split; [exact H | repeat constructor; now left].
Qed.

Lemma parse_sort_string_orders (s : string) :
  Forall (fun o => o = "asc" \/ o = "desc") (snd (parse_sort_string s)).
Proof.
  rewrite parse_sort_string_fold.
  assert (H : Forall (fun o => o = "asc" \/ o = "desc")
                     (snd (@nil string, @nil string))) by constructor.
  revert H. generalize (@nil string, @nil string).
  induction (sort_fields s) as [|f fs IH]; intros acc H; cbn [fold_left]; [exact H|].
  apply IH, parse_sort_field_orders, H.
Qed.

(** C7. The sort parser computes what the specification describes: the
    string is split on commas, each token is trimmed, empty tokens are
    dropped, a leading minus marks descending order and is removed
    before the column name is taken, a token that is only a minus is
    dropped; directives follow token order and nothing is deduplicated
    (parsing distributes over a comma). The columns and orders lists have
    equal length and every order is [asc] or [desc]. The three examples of
    the specification evaluate as stated. *)
Theorem parse_sort_string_correct :
  (forall s, directives (parse_sort_string s) = parse_directives s)
  /\ (forall s, length (fst (parse_sort_string s)) = length (snd (parse_sort_string s)))
  /\ (forall s, Forall (fun o => o = "asc" \/ o = "desc") (snd (parse_sort_string s)))
  /\ (forall s1 s2,
        directives (parse_sort_string (s1 ++ "," ++ s2))
        = directives (parse_sort_string s1) ++ directives (parse_sort_string s2))
  /\ parse_sort_string "" = ([], [])
  /\ parse_sort_string "-" = ([], [])
  /\ parse_sort_string "a,-b,c" = (["a"; "b"; "c"], ["asc"; "desc"; "asc"])
  /\ directives (parse_sort_string "a,-b,c")
     = [("a", ascending); ("b", descending); ("c", ascending)]
  /\ directives (parse_sort_string " x ,, - y ,-,x")
     = [("x", ascending); ("y", descending); ("x", ascending)].
Proof.
  split; [intros s; apply parse_sort_string_spec|].
  split; [intros s; apply parse_sort_string_spec|].
  split; [exact parse_sort_string_orders|].
  split.
  { intros s1 s2. rewrite !(proj2 (parse_sort_string_spec _)).
    unfold parse_directives. rewrite split_comma_app. apply flat_map_app. }
  repeat split; reflexivity.
Qed.

End SortParser.

(** ** Column type classifier *)

(** C9. A storage type outside the mapped classes gets exactly the
    operator list [eq] and the native type [str]; the classifier is a total
    function. For every storage type the operator list is non-empty and
    each of its operators is one of the seven operators of the data model,
    which are also the keys of [OPERATOR_MAPPING]. *)
Theorem classifier_fallback_and_range :
  (forall type_name,
      _get_operators_for_type (Unmapped type_name) = ["eq"]
      /\ _get_python_type (Unmapped type_name) = py_str)
  /\ (forall t,
        _get_operators_for_type t <> []
        /\ incl (_get_operators_for_type t) global_operators
        /\ incl (_get_operators_for_type t) (dict_keys OPERATOR_MAPPING)).
Proof.
  split; [intros type_name; split; reflexivity|].
  intros [[]|type_name]; (split; [discriminate|]);
    split; intros op Hop; cbn in Hop |- *; intuition auto.
Qed.

(** ** Pager *)



Lemma pages_formula (total per_page : Z) :
  (0 < per_page)%Z ->
  (((total + per_page - 1) / per_page - 1) * per_page < total
   <= (total + per_page - 1) / per_page * per_page)%Z.
Proof.
  intros Hb.
  pose proof (Z.mul_div_le (total + per_page - 1) per_page Hb).
  pose proof (Z.mul_succ_div_gt (total + per_page - 1) per_page Hb).
  nia.
Qed.

Lemma exec_all_window (session : Session) (statement : Statement) (o l : Z) :
  exec_all session (limit (offset statement o) l)
  = firstn (Z.to_nat l)
      (skipn (Z.to_nat o) (ordered session statement (selected session statement))).
Proof. reflexivity. Qed.

Lemma PaginationParams_valid_iff (p : PaginationParams) :
  PaginationParams_valid p = true
  <-> (1 <= page p)%Z /\ (1 <= per_page p <= 1000)%Z.
Proof. unfold PaginationParams_valid. rewrite !andb_true_iff, !Z.leb_le. tauto. Qed.

Lemma PaginationParams_defaults :
  PaginationParams_new None None = {| page := 1; per_page := 50 |}
  /\ PaginationParams_valid (PaginationParams_new None None) = true.
Proof. split; reflexivity. Qed.

(** Every count is the count of some query. *)
Lemma exec_count_any (n : nat) :
  exec_count (plain_session (repeat (row_of 1 active) n)) select = Z.of_nat n.
Proof.
  unfold exec_count, exec_all, window, ordered, selected. cbn.
  f_equal. induction n as [|n IH]; cbn; [reflexivity | now rewrite IH].
Qed.

Lemma floordiv_Ok (a b : Z) : b <> 0%Z -> floordiv a b = Ok (a / b)%Z.
Proof.
  intros Hb. unfold floordiv. destruct (Z.eqb_spec b 0); [contradiction | reflexivity].
Qed.

Lemma row_count_iff (n : Z) : row_count n = true <-> (0 <= n < 2 ^ 63)%Z.
Proof. unfold row_count. rewrite andb_true_iff, Z.leb_le, Z.ltb_lt. tauto. Qed.

(** The pager answers exactly when [per_page] is not zero and the database
    takes the offset and the limit; the answer is then the envelope. *)
Lemma set_offset_limit_cases (session : Session) (pagination : PaginationParams)
      (model_db : Model) (statement : Statement) :
  set_offset_limit session pagination model_db statement
  = if (per_page pagination =? 0)%Z then Raise ZeroDivisionError
    else if row_count ((page pagination - 1) * per_page pagination)
            && row_count (per_page pagination)
         then Ok (envelope session pagination statement)
         else Raise DataError.
Proof.
  unfold set_offset_limit, floordiv, exec_paged.
  destruct (per_page pagination =? 0)%Z; [reflexivity|].
  cbn [bind offset_clause limit_clause limit offset].
  destruct (row_count ((page pagination - 1) * per_page pagination)
            && row_count (per_page pagination)); reflexivity.
Qed.

Lemma set_offset_limit_Ok (session : Session) (pagination : PaginationParams)
      (model_db : Model) (statement : Statement) :
  (1 <= page pagination)%Z ->
  (1 <= per_page pagination < 2 ^ 63)%Z ->
  ((page pagination - 1) * per_page pagination < 2 ^ 63)%Z ->
  set_offset_limit session pagination model_db statement
  = Ok (envelope session pagination statement).
Proof.
  intros Hpage Hper Hoffset. rewrite set_offset_limit_cases.
  destruct (Z.eqb_spec (per_page pagination) 0) as [H0|_]; [lia|].
  assert (H1 : row_count ((page pagination - 1) * per_page pagination) = true)
    by (apply row_count_iff; nia).
  assert (H2 : row_count (per_page pagination) = true) by (apply row_count_iff; lia).
  now rewrite H1, H2.
Qed.

Lemma set_offset_limit_answer (session : Session) (pagination : PaginationParams)
      (model_db : Model) (statement : Statement) (r : PaginatedResponse) :
  set_offset_limit session pagination model_db statement = Ok r ->
  r = envelope session pagination statement.
Proof.
  rewrite set_offset_limit_cases.
  destruct (per_page pagination =? 0)%Z; [discriminate|].
  destruct (row_count ((page pagination - 1) * per_page pagination)
            && row_count (per_page pagination)); [|discriminate].
  intros H. now injection H.
Qed.




(** ** Composition of the list query *)

Lemma for_each_app {A S : Type} (body : S -> A -> Result S) (xs ys : list A) (acc : S) :
  for_each body (xs ++ ys) acc = (acc' <- for_each body xs acc ;; for_each body ys acc').
Proof.
  revert acc. induction xs as [|x xs IH]; intros acc; cbn; [reflexivity|].
  destruct (body acc x); cbn; [apply IH | reflexivity].
Qed.

(** The keyword [stmt] is not a parameter of [apply_sorting], so the call
    never reaches its body. *)
Lemma set_sorting_Some (statement : Statement) (model_db : Model) (s : string) :
  set_sorting statement model_db (Some s) = Raise TypeError.
Proof.
  unfold set_sorting.
  destruct (if PyStr.truthy s then parse_sort_string s else ([], [])) as [cols ords].
  reflexivity.
Qed.

Lemma set_sorting_Ok (statement statement' : Statement) (model_db : Model)
      (sort : option string) :
  set_sorting statement model_db sort = Ok statement' ->
  sort = None /\ statement' = statement.
Proof.
  destruct sort as [s|].
  - rewrite set_sorting_Some. discriminate.
  - cbn. intros H. injection H as <-. split; reflexivity.
Qed.

Ltac case_operator :=
  match goal with
  | |- context [is_operator ?e ?op] => destruct (is_operator e op) eqn:?
  end.

(** A filter entry, when accepted, adds exactly one criterion. *)
Lemma apply_filter_Ok (model_db : Model) (statement statement' : Statement)
      (item : string * Value) :
  apply_filter model_db statement item = Ok statement' ->
  exists c, statement' = where_ statement c.
Proof.
  destruct item as [k v]. unfold apply_filter.
  destruct (getattr model_db (nth 0 (PyStr.split k "__") "")) as [column|];
    repeat case_operator; cbn; try destruct v; cbn; intros H; try discriminate H;
    injection H as <-; eexists; reflexivity.
Qed.

Lemma apply_filters_Ok (model_db : Model) (filters : dict Value)
      (statement statement' : Statement) :
  for_each (apply_filter model_db) filters statement = Ok statement' ->
  exists cs,
    length cs = length filters
    /\ statement' = {| whereclause := whereclause statement ++ cs;
                       order_by_clauses := order_by_clauses statement;
                       offset_clause := offset_clause statement;
                       limit_clause := limit_clause statement |}.
Proof.
  revert statement. induction filters as [|item filters IH]; intros statement; cbn.
  - intros H. injection H as <-. exists []. rewrite app_nil_r.
    split; [reflexivity | now destruct statement].
  - destruct (apply_filter model_db statement item) as [st1|e] eqn:Hitem; cbn;
      [|discriminate].
    apply apply_filter_Ok in Hitem as [c ->]. intros H.
    apply IH in H as (cs & Hlen & ->). exists (c :: cs). cbn.
    split; [now rewrite Hlen | now rewrite <- app_assoc].
Qed.

Lemma set_filters_Ok (model_db : Model) (filters : dict Value)
      (statement statement' : Statement) :
  set_filters statement model_db filters = Ok statement' ->
  exists cs,
    length cs = length filters
    /\ statement' = {| whereclause := whereclause statement ++ cs;
                       order_by_clauses := order_by_clauses statement;
                       offset_clause := offset_clause statement;
                       limit_clause := limit_clause statement |}.
Proof.
  unfold set_filters. destruct filters as [|item filters].
  - intros H. injection H as <-. exists []. rewrite app_nil_r.
    split; [reflexivity | now destruct statement].
  - destruct (for_each copy_filter (item :: filters) []); cbn [bind]; [|discriminate].
    apply apply_filters_Ok.
Qed.

(** A composed list query: the status criterion first, then one criterion
    per filter entry; no ordering, no window. *)
Lemma compose_list_Ok (model_db : Model) (query_params : CommonQueryParams)
      (filters : dict Value) (statement : Statement) :
  compose_list model_db query_params filters = Ok statement ->
  sort query_params = None
  /\ exists cs,
      length cs = length filters
      /\ statement = {| whereclause := StatusEq (status query_params) :: cs;
                        order_by_clauses := [];
                        offset_clause := None;
                        limit_clause := None |}.
Proof.
  unfold compose_list.
  destruct (set_filters (set_status select model_db (status query_params))
                        model_db filters) as [st1|e] eqn:Hf; cbn [bind]; [|discriminate].
  intros Hs. apply set_sorting_Ok in Hs as [Hnone ->].
  apply set_filters_Ok in Hf as (cs & Hlen & ->).
  split; [exact Hnone|]. exists cs. split; [exact Hlen | reflexivity].
Qed.

Lemma In_window (statement : Statement) (rows : list Row) (row : Row) :
  In row (window statement rows) -> In row rows.
Proof.
  unfold window. intros H.
  assert (Hskip : In row match offset_clause statement with
                         | Some n => skipn (Z.to_nat n) rows
                         | None => rows
                         end).
  { destruct (limit_clause statement) as [n|]; [|exact H].
    rewrite <- (firstn_skipn (Z.to_nat n)). apply in_or_app. now left. }
  destruct (offset_clause statement) as [n|]; [|exact Hskip].
  rewrite <- (firstn_skipn (Z.to_nat n) rows). apply in_or_app. now right.
Qed.

(** Without an ordering clause, what a query returns are rows of the table
    that satisfy every criterion. *)
Lemma exec_all_sound (session : Session) (statement : Statement) (row : Row) :
  order_by_clauses statement = [] ->
  In row (exec_all session statement) ->
  In row (table session)
  /\ forallb (holds session row) (whereclause statement) = true.
Proof.
  unfold exec_all, ordered, selected. intros -> H.
  apply In_window in H. now apply filter_In in H.
Qed.

Lemma get_list_scope (model_db : Model) (session : Session)
      (query_params : CommonQueryParams) (filters : dict Value)
      (response : PaginatedResponse) (row : Row) :
  _get_list model_db session query_params filters = Ok response ->
  In row (data response) ->
  In row (table session) /\ status_id row = Some (status query_params).
Proof.
  unfold _get_list.
  destruct (compose_list model_db query_params filters) as [st|e] eqn:Hc;
    cbn [bind]; [|discriminate].
  apply compose_list_Ok in Hc as (_ & cs & _ & ->).
  intros H. apply set_offset_limit_answer in H as ->.
  unfold envelope. cbn [data]. intros Hrow.
  apply exec_all_sound in Hrow as [Hin Hall]; [|reflexivity].
  split; [exact Hin|]. cbn in Hall. apply andb_prop in Hall as [Hstatus _].
  destruct (status_id row) as [s|]; [|discriminate].
  f_equal. now destruct s, (status query_params).
Qed.

(** ** Rows and primary keys *)

Lemma unique_ids_eq (rows : list Row) (x y : Row) :
  unique_ids rows -> In x rows -> In y rows -> id x = id y -> x = y.
Proof.
  unfold unique_ids. induction rows as [|a rows IH]; cbn; [contradiction|].
  intros Hnd Hx Hy Hid. inversion Hnd as [|? ? Hnotin Hrest]; subst.
  destruct Hx as [->|Hx], Hy as [->|Hy]; auto.
  - exfalso. apply Hnotin. rewrite Hid. now apply in_map.
  - exfalso. apply Hnotin. rewrite <- Hid. now apply in_map.
Qed.

Lemma filter_id_absent (rows : list Row) (i : Z) (p : Row -> bool) :
  ~ In i (map id rows) -> filter (fun x => (id x =? i)%Z && p x) rows = [].
Proof.
  induction rows as [|a rows IH]; cbn; [reflexivity|]. intros Hnot.
  destruct (Z.eqb_spec (id a) i) as [Heq|Hne]; [tauto|]. cbn. apply IH. tauto.
Qed.

(** Selecting by primary key and a further test finds the one row with
    that key, or nothing. *)
Lemma filter_by_id (rows : list Row) (row : Row) (p : Row -> bool) :
  unique_ids rows -> In row rows ->
  filter (fun x => (id x =? id row)%Z && p x) rows = if p row then [row] else [].
Proof.
  unfold unique_ids. induction rows as [|a rows IH]; [contradiction|].
  cbn [map filter]. intros Hnd Hin. inversion Hnd as [|? ? Hnotin Hrest]; subst.
  destruct Hin as [->|Hin].
  - rewrite Z.eqb_refl. cbn [andb]. rewrite (filter_id_absent rows _ p Hnotin).
    reflexivity.
  - destruct (Z.eqb_spec (id a) (id row)) as [Heq|Hne].
    + exfalso. apply Hnotin. rewrite Heq. now apply in_map.
    + cbn [andb]. now apply IH.
Qed.

Lemma find_by_id (rows : list Row) (row : Row) :
  unique_ids rows -> In row rows ->
  find (fun x => (id x =? id row)%Z) rows = Some row.
Proof.
  unfold unique_ids. induction rows as [|a rows IH]; [contradiction|].
  cbn [map find]. intros Hnd Hin. inversion Hnd as [|? ? Hnotin Hrest]; subst.
  destruct Hin as [->|Hin]; [now rewrite Z.eqb_refl|].
  destruct (Z.eqb_spec (id a) (id row)) as [Heq|Hne]; [|now apply IH].
  exfalso. apply Hnotin. rewrite Heq. now apply in_map.
Qed.

Lemma find_id_present (rows : list Row) (row : Row) :
  In row rows ->
  exists found, find (fun x => (id x =? id row)%Z) rows = Some found
                /\ id found = id row /\ In found rows.
Proof.
  induction rows as [|a rows IH]; [contradiction|]. cbn [find]. intros Hin.
  destruct (Z.eqb_spec (id a) (id row)) as [Heq|Hne].
  - exists a. repeat split; [exact Heq | now left].
  - destruct Hin as [->|Hin]; [congruence|].
    destruct (IH Hin) as (found & Hf & Hid & Hin'). exists found.
    repeat split; [exact Hf | exact Hid | now right].
Qed.

Lemma persist_ids (session : Session) (row : Row) :
  map id (table (persist session row)) = map id (table session).
Proof.
  unfold persist. cbn [table with_table]. rewrite map_map. apply map_ext.
  intros old. destruct (Z.eqb_spec (id old) (id row)) as [Heq|_]; congruence.
Qed.

Lemma persist_In (session : Session) (old new : Row) :
  In old (table session) -> id new = id old ->
  In new (table (persist session new)).
Proof.
  intros Hin Hid. unfold persist. cbn [table with_table]. apply in_map_iff.
  exists old. split; [|exact Hin]. now rewrite Hid, Z.eqb_refl.
Qed.

(** The statements of the delete and restore lookups. *)
Lemma exec_first_by_id (session : Session) (i : Z) (c : Criterion) :
  exec_first session (where_ (where_ select (IdEq i)) c)
  = hd_error (filter (fun x => (id x =? i)%Z && (holds session x c && true))
                     (table session)).
Proof. reflexivity. Qed.

Lemma hd_error_In {A : Type} (xs : list A) (x : A) : hd_error xs = Some x -> In x xs.
Proof. destruct xs; cbn; [discriminate|]. intros H. injection H as ->. now left. Qed.

(** ** Endpoints *)

Lemma delete_lookup (session : Session) (i : Z) (row : Row) (session' : Session) :
  _delete_one session i = Ok (row, session') ->
  exists found st,
    In found (table session) /\ id found = i
    /\ status_id found = Some st /\ st <> deleted.
Proof.
  unfold _delete_one. rewrite exec_first_by_id.
  destruct (hd_error _) as [found|] eqn:Hfound; [|discriminate]. intros _.
  apply hd_error_In, filter_In in Hfound as [Hin Htest].
  apply andb_prop in Htest as [Hid Hst]. apply Z.eqb_eq in Hid.
  cbn in Hst. destruct (status_id found) as [st|] eqn:Hs; [|discriminate].
  exists found, st. repeat split; auto. intros ->. discriminate.
Qed.

Lemma restore_lookup (session : Session) (i : Z) (row : Row) (session' : Session) :
  _restore_one session i = Ok (row, session') ->
  exists found,
    In found (table session) /\ id found = i /\ status_id found = Some deleted.
Proof.
  unfold _restore_one. rewrite exec_first_by_id.
  destruct (hd_error _) as [found|] eqn:Hfound; [|discriminate]. intros _.
  apply hd_error_In, filter_In in Hfound as [Hin Htest].
  apply andb_prop in Htest as [Hid Hst]. apply Z.eqb_eq in Hid.
  cbn in Hst. destruct (status_id found) as [[]|] eqn:Hs; try discriminate.
  exists found. repeat split; auto.
Qed.

(** C1, as the code has it. The list, delete and restore operations
    constrain their row lookup on the lifecycle status column: every row a
    list request returns has the requested status, which is [active] when
    the caller gives none; delete only finds a row whose status is set and
    is not [deleted]; restore only finds a row whose status is [deleted].
    View and update look the row up by primary key alone: a row with that
    key is found whatever its status. *)
Theorem lookup_status_scope (session : Session) (i : Z) :
  (forall model_db query_params filters response,
      _get_list model_db session query_params filters = Ok response ->
      Forall (fun row => status_id row = Some (status query_params)) (data response))
  /\ (forall sort pagination,
        status (CommonQueryParams_new None sort pagination) = active)
  /\ (forall row session',
        _delete_one session i = Ok (row, session') ->
        exists found st,
          In found (table session) /\ id found = i
          /\ status_id found = Some st /\ st <> deleted)
  /\ (forall row session',
        _restore_one session i = Ok (row, session') ->
        exists found,
          In found (table session) /\ id found = i /\ status_id found = Some deleted)
  /\ (forall row,
        In row (table session) -> id row = i ->
        exists found,
          In found (table session) /\ id found = i
          /\ _get_one session i = Ok found
          /\ forall accepted update_data,
              _update_one accepted session update_data i
              = let updated := sqlmodel_update found update_data in
                if accepted updated
                then Ok (updated, persist session updated)
                else Raise (HTTPException 422)).
Proof.
  split.
  { intros model_db query_params filters response H. apply Forall_forall.
    intros row Hrow. eapply get_list_scope; eauto. }
  split; [reflexivity|].
  split; [apply delete_lookup|].
  split; [apply restore_lookup|].
  intros row Hin <-.
  destruct (find_id_present _ _ Hin) as (found & Hfind & Hid & Hfound).
  exists found. unfold _get_one, _update_one, session_get. rewrite Hfind.
  repeat split; auto.
Qed.

(** A list request with neither status nor sort nor filter returns the
    active rows; view and update reach a deleted row. *)
Lemma lookup_status_scope_witness :
  let session := plain_session [row_of 1 deleted; row_of 2 active] in
  (exists response,
      _get_list City session
        (CommonQueryParams_new None None (PaginationParams_new None None)) []
      = Ok response
      /\ Forall (fun row => status_id row = Some active) (data response)
      /\ data response = [row_of 2 active])
  /\ (exists found, _get_one session 1 = Ok found /\ status_id found = Some deleted).
Proof.
  intros session.
  destruct (lookup_status_scope session 1) as (Hlist & Hdefault & _ & _ & Hview).
  split.
  - eexists. split; [reflexivity|]. split; [|reflexivity].
    exact (Hlist City
             (CommonQueryParams_new None None (PaginationParams_new None None))
             [] _ eq_refl).
  - destruct (Hview (row_of 1 deleted) (or_introl eq_refl) eq_refl)
      as (found & _ & _ & Hget & _).
    exists found. split; [exact Hget|].
    cbv in Hget. injection Hget as <-. reflexivity.
Defined.

(** C1 as stated fails for view and update: whatever the status
    of a row, also [deleted] or NULL, both operations reach it. *)
Lemma view_and_update_ignore_status :
  (forall st : option Status,
      let row := {| id := 1; status_id := st; fields := [("name", VStr "n")] |} in
      _get_one (plain_session [row]) 1 = Ok row)
  /\ (forall st : option Status,
        let row := {| id := 1; status_id := st; fields := [("name", VStr "n")] |} in
        let row' := {| id := 1; status_id := st; fields := [("name", VStr "m")] |} in
        _update_one (fun _ => true) (plain_session [row]) [("name", VStr "m")] 1
        = Ok (row', plain_session [row']))
  /\ _get_one (plain_session [row_of 1 deleted]) 1 = Ok (row_of 1 deleted).
Proof. repeat split; reflexivity. Qed.

(** C8. With unique primary keys, deleting a row that is [active] or
    [inactive] returns the record with status [deleted] and stores it; no
    list request in the [active] scope returns it afterwards, and a second
    delete answers 404. Restoring a row that is [deleted] returns the
    record with status [active] and stores it, so that it satisfies the
    [active] scope again. *)
Theorem soft_delete_round_trip (session : Session) (row : Row) :
  unique_ids (table session) ->
  In row (table session) ->
  (forall st,
      status_id row = Some st -> st <> deleted ->
      let gone := set_status_id row deleted in
      let session' := persist session gone in
      _delete_one session (id row) = Ok (gone, session')
      /\ status_id gone = Some deleted
      /\ session_get session' (id row) = Some gone
      /\ (forall model_db query_params filters response,
            status query_params = active ->
            _get_list model_db session' query_params filters = Ok response ->
            forall listed, In listed (data response) -> id listed <> id row)
      /\ _delete_one session' (id row) = Raise (HTTPException 404))
  /\ (status_id row = Some deleted ->
      let back := set_status_id row active in
      let session' := persist session back in
      _restore_one session (id row) = Ok (back, session')
      /\ status_id back = Some active
      /\ session_get session' (id row) = Some back
      /\ holds session' back (StatusEq active) = true
      /\ _delete_one session' (id row)
         = Ok (set_status_id back deleted, persist session' (set_status_id back deleted))).
Proof.
  intros Hnd Hin.
  assert (Hafter : forall s,
             let new := set_status_id row s in
             unique_ids (table (persist session new))
             /\ In new (table (persist session new))
             /\ session_get (persist session new) (id row) = Some new).
  { intros s new.
    assert (Hu : unique_ids (table (persist session new)))
      by (unfold unique_ids; now rewrite persist_ids).
    assert (Hi : In new (table (persist session new)))
      by (now apply persist_In with (old := row)).
    repeat split; [exact Hu | exact Hi |].
    apply (find_by_id _ new Hu Hi). }
  split.
  - intros st Hst Hne gone session'.
    destruct (Hafter deleted) as (Hu & Hi & Hget). fold gone session' in Hu, Hi, Hget.
    split.
    { unfold _delete_one. rewrite exec_first_by_id.
      rewrite (filter_by_id _ row _ Hnd Hin). cbn [holds]. rewrite Hst.
      destruct st; [reflexivity | reflexivity | congruence]. }
    split; [reflexivity|]. split; [exact Hget|]. split.
    { intros model_db query_params filters response Hactive Hlist listed Hlisted Hid.
      destruct (get_list_scope _ _ _ _ _ _ Hlist Hlisted) as [Hl Hs].
      assert (listed = gone) by (eapply unique_ids_eq; eauto).
      subst listed. rewrite Hactive in Hs. discriminate Hs. }
    unfold _delete_one. rewrite exec_first_by_id.
    change (id row) with (id gone). rewrite (filter_by_id _ gone _ Hu Hi).
    reflexivity.
  - intros Hst back session'.
    destruct (Hafter active) as (Hu & Hi & Hget). fold back session' in Hu, Hi, Hget.
    split.
    { unfold _restore_one. rewrite exec_first_by_id.
      rewrite (filter_by_id _ row _ Hnd Hin). cbn [holds]. rewrite Hst. reflexivity. }
    split; [reflexivity|]. split; [exact Hget|]. split; [reflexivity|].
    unfold _delete_one. rewrite exec_first_by_id.
    change (id row) with (id back). rewrite (filter_by_id _ back _ Hu Hi).
    reflexivity.
Qed.

Lemma soft_delete_round_trip_witness :
  let session := plain_session [row_of 1 active; row_of 2 deleted] in
  (_delete_one session 1
   = Ok (row_of 1 deleted, plain_session [row_of 1 deleted; row_of 2 deleted])
   /\ _delete_one (plain_session [row_of 1 deleted; row_of 2 deleted]) 1
      = Raise (HTTPException 404))
  /\ _restore_one session 2
     = Ok (row_of 2 active, plain_session [row_of 1 active; row_of 2 active]).
Proof.
  intros session.
  assert (Hnd : unique_ids (table session)).
  { unfold unique_ids. cbn. repeat constructor; cbn; intuition discriminate. }
  split.
  - destruct (soft_delete_round_trip session (row_of 1 active) Hnd (or_introl eq_refl))
      as [Hdelete _].
    destruct (Hdelete active eq_refl ltac:(discriminate)) as (H1 & _ & _ & _ & H2).
    split; [exact H1 | exact H2].
  - destruct (soft_delete_round_trip session (row_of 2 deleted) Hnd
                (or_intror (or_introl eq_refl))) as [_ Hrestore].
    destruct (Hrestore eq_refl) as (H1 & _). exact H1.
Defined.

(** ** Sorting *)

Lemma sort_orders_accepted (orders : list string) :
  Forall (fun o => o = "asc" \/ o = "desc") orders ->
  for_each (fun (_ : unit) order =>
              if negb (str_in order ["asc"; "desc"]) then Raise ValueError else Ok tt)
           orders tt
  = Ok tt.
Proof.
  induction 1 as [|o orders [->| ->] _ IH]; cbn [for_each]; [reflexivity | exact IH ..].
Qed.

Lemma order_by_each (model_db : Model) (cols orders seen : list string)
      (statement : Statement) :
  length cols = length orders ->
  Forall (known_column model_db) cols ->
  for_each
    (fun statement (item : nat * string) =>
       let '(idx, column_name) := item in
       match getattr model_db column_name with
       | None => Raise ArgumentError
       | Some column =>
           let order := nth idx (seen ++ orders) "" in
           Ok (order_by statement
                 (if String.eqb order "asc" then asc column else desc column))
       end)
    (combine (seq (length seen) (length cols)) cols) statement
  = Ok {| whereclause := whereclause statement;
          order_by_clauses := order_by_clauses statement
                              ++ map order_clause (combine cols orders);
          offset_clause := offset_clause statement;
          limit_clause := limit_clause statement |}.
Proof.
  revert orders seen statement.
  induction cols as [|c cols IH]; intros [|o orders] seen statement Hlen Hknown;
    try discriminate Hlen.
  - cbn. rewrite app_nil_r. now destruct statement.
  - inversion Hknown as [|? ? Hc Hrest]; subst. cbn [length seq combine for_each].
    rewrite Hc. rewrite app_nth2, Nat.sub_diag by lia. cbn [nth bind].
    replace (seen ++ o :: orders) with ((seen ++ [o]) ++ orders)
      by (now rewrite <- app_assoc).
    replace (S (length seen)) with (length (seen ++ [o]))
      by (rewrite length_app; cbn; lia).
    rewrite IH; [|now injection Hlen | exact Hrest].
    cbn [order_by whereclause order_by_clauses offset_clause limit_clause map].
    unfold order_clause at 2. cbn [fst snd]. now rewrite <- app_assoc.
Qed.

(** Called with its own parameter names, [apply_sorting] appends one
    clause per parsed directive, in order. *)
Lemma apply_sorting_parsed (statement : Statement) (model_db : Model) (s : string) :
  fst (parse_sort_string s) <> [] ->
  Forall (known_column model_db) (fst (parse_sort_string s)) ->
  apply_sorting statement model_db
    (StrList (fst (parse_sort_string s))) (Some (StrList (snd (parse_sort_string s))))
  = Ok {| whereclause := whereclause statement;
          order_by_clauses :=
            order_by_clauses statement
            ++ map order_clause
                   (combine (fst (parse_sort_string s)) (snd (parse_sort_string s)));
          offset_clause := offset_clause statement;
          limit_clause := limit_clause statement |}.
Proof.
  pose proof (proj1 (parse_sort_string_spec s)) as Hlen.
  pose proof (parse_sort_string_orders s) as Horders.
  destruct (parse_sort_string s) as [cols orders]. cbn [fst snd] in *.
  intros Hcols Hknown. unfold apply_sorting.
  destruct cols as [|c cols]; [congruence|].
  destruct orders as [|o orders]; [discriminate Hlen|].
  cbn [StrOrList_truthy negb andb].
  rewrite (proj2 (Nat.eqb_eq _ _) Hlen). cbn [negb].
  rewrite (sort_orders_accepted _ Horders). cbn [bind].
  exact (order_by_each model_db (c :: cols) (o :: orders) [] statement Hlen Hknown).
Qed.

(** C2 fails on the code. Any list request that carries a [sort]
    parameter, the empty string included, ends in [TypeError]:
    [set_sorting] passes the statement under the keyword [stmt], which
    [apply_sorting] does not have, so no ordering clause is ever added and
    the request never completes. *)
Theorem sorted_list_request_raises :
  (forall statement model_db s,
      set_sorting statement model_db (Some s) = Raise TypeError)
  /\ (forall model_db session status s pagination filters,
        exists e,
          _get_list model_db session
            {| status := status; sort := Some s; pagination := pagination |} filters
          = Raise e)
  /\ _get_list City (plain_session [row_of 1 active])
       (CommonQueryParams_new None (Some "name") (PaginationParams_new None None)) []
     = Raise TypeError.
Proof.
  split; [exact set_sorting_Some|]. split; [|reflexivity].
  intros model_db session status s pagination filters.
  unfold _get_list, compose_list. cbn [sort].
  destruct (set_filters _ model_db filters) as [st|e]; cbn [bind].
  - rewrite set_sorting_Some. now exists TypeError.
  - now exists e.
Qed.

(** ** Filter entries *)

Lemma for_each_raises {A S : Type} (body : S -> A -> Result S) (xs : list A)
      (acc : S) (e : PyError) :
  for_each body xs acc = Raise e ->
  exists acc' x, In x xs /\ body acc' x = Raise e.
Proof.
  revert acc. induction xs as [|x xs IH]; intros acc; cbn; [discriminate|].
  destruct (body acc x) as [acc1|e1] eqn:Hx; cbn.
  - intros H. destruct (IH _ H) as (acc' & y & Hy & Hraise).
    exists acc', y. split; [now right | exact Hraise].
  - intros H. injection H as <-. exists acc, x. split; [now left | exact Hx].
Qed.

Lemma for_each_stops {A S : Type} (body : S -> A -> Result S) (xs : list A)
      (x : A) (acc : S) :
  In x xs -> (forall acc', exists e, body acc' x = Raise e) ->
  exists e, for_each body xs acc = Raise e.
Proof.
  intros Hin Hx. revert acc. induction xs as [|y xs IH]; intros acc; [contradiction|].
  cbn. destruct Hin as [->|Hin].
  - destruct (Hx acc) as [e ->]. now exists e.
  - destruct (body acc y) as [acc1|e]; cbn; [now apply IH | now exists e].
Qed.



Lemma apply_filter_422 (model_db : Model) (statement : Statement)
      (k : string) (v : Value) :
  apply_filter model_db statement (k, v) = Raise (HTTPException 422) ->
  supported_operator (key_operator k) = false.
Proof.
  unfold apply_filter, supported_operator. fold (key_operator k).
  cbn [existsb SQLOperators_members].
  destruct (getattr model_db (nth 0 (PyStr.split k "__") "")) as [column|];
    repeat case_operator; cbn; try destruct v; cbn; intros H;
    try discriminate H; reflexivity.
Qed.


Lemma copy_filter_raises (new_dict : dict Value) (item : string * Value) (e : PyError) :
  copy_filter new_dict item = Raise e -> e = AttributeError.
Proof.
  destruct item as [k v]. unfold copy_filter.
  destruct (PyStr.startswith k "created_at"); [|discriminate].
  destruct v; cbn; intros H; now inversion H.
Qed.

Lemma apply_filter_raises (model_db : Model) (statement : Statement)
      (item : string * Value) (e : PyError) :
  apply_filter model_db statement item = Raise e ->
  e = HTTPException 422 \/ e = AttributeError \/ e = TypeError \/ e = ArgumentError.
Proof.
  destruct item as [k v]. unfold apply_filter.
  destruct (getattr model_db (nth 0 (PyStr.split k "__") "")) as [column|];
    repeat case_operator; cbn; try destruct v; cbn; intros H; try discriminate H;
    injection H as <-; auto.
Qed.

Lemma set_filters_raises (statement : Statement) (model_db : Model)
      (filters : dict Value) (e : PyError) :
  set_filters statement model_db filters = Raise e ->
  e = AttributeError \/ e = TypeError \/ e = ArgumentError
  \/ (e = HTTPException 422
      /\ exists k v, In (k, v) filters /\ supported_operator (key_operator k) = false).
Proof.
  unfold set_filters. destruct filters as [|item filters]; [discriminate|].
  destruct (for_each copy_filter (item :: filters) []) as [nd|e1] eqn:Hcopy; cbn [bind].
  - intros H. apply for_each_raises in H as (acc & [k v] & Hin & Hraise).
    destruct (apply_filter_raises _ _ _ _ Hraise) as [-> | [-> | [-> | ->]]]; auto.
    right. right. right. split; [reflexivity|]. exists k, v. split; [exact Hin|].
    eapply apply_filter_422; eauto.
  - intros H. injection H as <-.
    apply for_each_raises in Hcopy as (acc & x & _ & Hraise).
    left. eapply copy_filter_raises; eauto.
Qed.




(** ** Dictionaries *)

Lemma dict_get_set_same {V : Type} (d : dict V) (k : string) (v : V) :
  dict_get (dict_set d k v) k = Some v.
Proof.
  induction d as [|[k' v'] d IH]; cbn.
  - now rewrite String.eqb_refl.
  - destruct (String.eqb k' k) eqn:Hk; cbn; rewrite Hk; [reflexivity | exact IH].
Qed.

Lemma dict_get_set_other {V : Type} (d : dict V) (k k' : string) (v : V) :
  k <> k' -> dict_get (dict_set d k v) k' = dict_get d k'.
Proof.
  intros Hne. induction d as [|[k0 v0] d IH]; cbn.
  - destruct (String.eqb_spec k k'); [contradiction | reflexivity].
  - destruct (String.eqb_spec k0 k) as [->|Hk0]; cbn.
    + destruct (String.eqb_spec k k'); [contradiction | reflexivity].
    + now rewrite IH.
Qed.

Lemma In_dict_set {V : Type} (d : dict V) (k : string) (v : V) (entry : string * V) :
  In entry (dict_set d k v) -> entry = (k, v) \/ In entry d.
Proof.
  induction d as [|[k0 v0] d IH]; cbn.
  - intros [<-|[]]. now left.
  - destruct (String.eqb_spec k0 k) as [->|Hk0]; cbn.
    + intros [<-|H]; auto.
    + intros [<-|H]; auto. destruct (IH H); auto.
Qed.

Lemma dict_keys_set {V : Type} (d : dict V) (k x : string) (v : V) :
  In x (dict_keys (dict_set d k v)) -> x = k \/ In x (dict_keys d).
Proof.
  unfold dict_keys. intros H. apply in_map_iff in H as ([k' v'] & <- & Hin).
  apply In_dict_set in Hin as [Heq|Hin].
  - injection Heq as -> _. now left.
  - right. now apply (in_map fst) in Hin.
Qed.

Lemma dict_get_In {V : Type} (d : dict V) (k : string) (v : V) :
  dict_get d k = Some v -> In (k, v) d.
Proof.
  induction d as [|[k0 v0] d IH]; cbn; [discriminate|].
  destruct (String.eqb_spec k0 k) as [->|Hk0].
  - intros H. injection H as ->. now left.
  - intros H. right. now apply IH.
Qed.

Lemma str_in_In (x : string) (xs : list string) : str_in x xs = true <-> In x xs.
Proof.
  unfold str_in. rewrite existsb_exists. split.
  - intros (y & Hy & Heq). apply String.eqb_eq in Heq. now subst.
  - intros H. exists x. split; [exact H | apply String.eqb_refl].
Qed.

Lemma distinct_NoDup (xs : list string) : distinct xs = true -> NoDup xs.
Proof.
  induction xs as [|x xs IH]; cbn; [constructor|]. intros H.
  apply andb_prop in H as [Hx Hrest]. constructor; [|now apply IH].
  intros Hin. apply str_in_In in Hin. now rewrite Hin in Hx.
Qed.

(** ** The generated filter function *)

Lemma model_fields_In (model_class : Model) (excluded : list string)
      (f : string) (t : SqlType) :
  In (f, t) (_get_model_fields model_class excluded) ->
  In (f, t) (columns model_class) /\ str_in f excluded = false.
Proof.
  unfold _get_model_fields.
  assert (H : forall cols acc,
             In (f, t) (fold_left
                          (fun fields column =>
                             if negb (str_in (fst column) excluded)
                             then dict_set fields (fst column) (snd column)
                             else fields) cols acc) ->
             In (f, t) acc \/ (In (f, t) cols /\ str_in f excluded = false)).
  { induction cols as [|[c ct] cols IH]; intros acc; cbn [fold_left fst snd]; [auto|].
    intros Hin. apply IH in Hin as [Hin|[Hin Hex]]; [|right; split; [now right | exact Hex]].
    destruct (str_in c excluded) eqn:Hc; cbn [negb] in Hin; [now left|].
    apply In_dict_set in Hin as [Heq|Hin]; [|now left].
    injection Heq as -> ->. right. split; [now left | exact Hc]. }
  intros Hin. apply H in Hin as [[]|Hin]. exact Hin.
Qed.

Lemma generate_stmt_total (f : string) (t : SqlType) (op : string) :
  In op (_get_operators_for_type t) ->
  exists stmt, generate_stmt f t op = Ok stmt.
Proof.
  destruct t as [[]|type_name]; cbn; intros H;
    repeat (destruct H as [<-|H]; [eexists; reflexivity|]); contradiction.
Qed.

(** The key of a generated statement: the column name followed by the
    suffix [OPERATOR_MAPPING] gives the operator. *)
Lemma generate_stmt_key (f : string) (t : SqlType) (op : string) (stmt : FilterStmt) :
  generate_stmt f t op = Ok stmt ->
  exists suffix,
    In (op, suffix) OPERATOR_MAPPING /\ stmt_key stmt = (f ++ suffix)%string.
Proof.
  unfold generate_stmt, dict_index.
  destruct (dict_get OPERATOR_MAPPING op) as [suffix|] eqn:Hget; cbn [bind];
    [|discriminate].
  intros H. exists suffix. split; [now apply dict_get_In|].
  destruct (String.eqb op "like"); [|destruct (is_in_operator op)];
    injection H as <-; reflexivity.
Qed.

Lemma generate_field_stmts (f : string) (t : SqlType) (ops : list string)
      (acc : list FilterStmt) :
  incl ops (_get_operators_for_type t) ->
  exists out,
    for_each (fun body operator =>
                stmt <- generate_stmt f t operator ;; Ok (body ++ [stmt])) ops acc
    = Ok out
    /\ forall stmt,
        In stmt out <->
        In stmt acc \/ exists op, In op ops /\ generate_stmt f t op = Ok stmt.
Proof.
  revert acc. induction ops as [|op ops IH]; intros acc Hincl; cbn [for_each].
  - exists acc. split; [reflexivity|]. intros stmt. split; [auto|].
    intros [H|(op & [] & _)]. exact H.
  - destruct (generate_stmt_total f t op (Hincl op (or_introl eq_refl))) as [s Hs].
    rewrite Hs. cbn [bind].
    destruct (IH (acc ++ [s]) (fun x Hx => Hincl x (or_intror Hx))) as (out & -> & Hout).
    exists out. split; [reflexivity|]. intros stmt. rewrite Hout, in_app_iff. cbn [In].
    split.
    + intros [[H|[<-|[]]]|(op' & Hin & Hgen)]; auto.
      * right. exists op. auto.
      * right. exists op'. auto.
    + intros [H|(op' & [<-|Hin] & Hgen)]; auto.
      * left. right. left. congruence.
      * right. exists op'. auto.
Qed.

Lemma generate_body_from (fields : dict SqlType) (acc : list FilterStmt) :
  exists out,
    for_each
      (fun body field =>
         for_each
           (fun body operator =>
              stmt <- generate_stmt (fst field) (snd field) operator ;;
              Ok (body ++ [stmt]))
           (_get_operators_for_type (snd field)) body)
      fields acc
    = Ok out
    /\ forall stmt, In stmt out <-> In stmt acc \/ from_field fields stmt.
Proof.
  revert acc. induction fields as [|[f t] fields IH]; intros acc; cbn [for_each fst snd].
  - exists acc. split; [reflexivity|]. intros stmt. split; [auto|].
    intros [H|(f & t & op & [] & _)]. exact H.
  - destruct (generate_field_stmts f t (_get_operators_for_type t) acc (incl_refl _))
      as (mid & -> & Hmid).
    cbn [bind]. destruct (IH mid) as (out & -> & Hout).
    exists out. split; [reflexivity|]. intros stmt. rewrite Hout, Hmid.
    unfold from_field. split.
    + intros [[H|(op & Hop & Hgen)]|(f' & t' & op & Hin & Hop & Hgen)]; auto.
      * right. exists f, t, op. repeat split; auto. now left.
      * right. exists f', t', op. repeat split; auto. now right.
    + intros [H|(f' & t' & op & [Heq|Hin] & Hop & Hgen)]; auto.
      * injection Heq as -> ->. left. right. exists op. auto.
      * right. exists f', t', op. auto.
Qed.

(** Generation never fails, and the body holds exactly the statements of
    the model's (column, operator) pairs. *)
Lemma create_filter_dependency_total (model_class : Model) (excluded : list string) :
  exists f,
    create_filter_dependency model_class excluded = Ok f
    /\ forall stmt,
        In stmt (function_body f) <->
        from_field (_get_model_fields model_class excluded) stmt.
Proof.
  unfold create_filter_dependency, generate_filter_function, generate_body.
  destruct (generate_body_from (_get_model_fields model_class excluded) [])
    as (body & -> & Hbody).
  cbn [bind]. eexists. split; [reflexivity|]. cbn [function_body].
  intros stmt. rewrite Hbody. split; [intros [[]|H]; exact H | auto].
Qed.

(** The parameters of the [like] and [in] operators are declared
    [Optional[str]], whatever the column. *)
Lemma text_parameters (fields : dict SqlType) (f : string) (t : SqlType) (op : string) :
  In (f, t) fields ->
  In op (_get_operators_for_type t) ->
  op = "like" \/ op = "in" ->
  In (param_name_of f op, py_str) (generate_params fields).
Proof.
  intros Hfield Hop Hkind. unfold generate_params. apply in_flat_map.
  exists (f, t). split; [exact Hfield|]. cbn [fst snd]. apply in_map_iff.
  exists op. split; [|exact Hop].
  destruct Hkind as [-> | ->]; [|reflexivity].
  destruct t as [[]|type_name]; cbn in Hop |- *;
    repeat (destruct Hop as [Hop|Hop]; try discriminate Hop); try contradiction;
    reflexivity.
Qed.

Lemma comprehension_items (to_int : bool) (xs : list string) :
  comprehension
    (fun x => if to_int then z <- PyStr.int (PyStr.strip x) ;; Ok (VInt z)
              else Ok (VStr (PyStr.strip x))) xs
  = if to_int
    then match comprehension (fun x => PyStr.int (PyStr.strip x)) xs with
         | Ok zs => Ok (map VInt zs)
         | Raise e => Raise e
         end
    else Ok (map (fun x => VStr (PyStr.strip x)) xs).
Proof.
  destruct to_int; induction xs as [|x xs IH]; cbn [comprehension bind map];
    try reflexivity.
  - destruct (PyStr.int (PyStr.strip x)) as [z|e]; cbn [bind]; [|reflexivity].
    rewrite IH.
    destruct (comprehension (fun x0 => PyStr.int (PyStr.strip x0)) xs); reflexivity.
  - now rewrite IH.
Qed.


(** [int] fails with [ValueError] and nothing else. *)
Lemma int_raises (s : string) (e : PyError) : PyStr.int s = Raise e -> e = ValueError.
Proof.
  unfold PyStr.int.
  match goal with
  | |- match ?parsed with Some _ => _ | None => _ end = _ -> _ =>
      destruct parsed as [z|]
  end.
  - destruct (_ <=? _)%nat; intros H; now inversion H.
  - intros H. now inversion H.
Qed.

Lemma comprehension_int_raises (xs : list string) (e : PyError) :
  comprehension (fun x => PyStr.int (PyStr.strip x)) xs = Raise e -> e = ValueError.
Proof.
  induction xs as [|x xs IH]; cbn [comprehension]; [discriminate|].
  destruct (PyStr.int (PyStr.strip x)) as [z|e1] eqn:Hx; cbn [bind].
  - destruct (comprehension _ xs); cbn [bind]; [discriminate|].
    intros H. injection H as <-. now apply IH.
  - intros H. injection H as <-. now apply int_raises in Hx.
Qed.

(** What the coercion of an [in] list comes to: every element coerces, or
    one does not. *)
Lemma comprehension_int_cases (xs : list string) :
  (exists zs, comprehension (fun x => PyStr.int (PyStr.strip x)) xs = Ok zs
              /\ Forall2 (fun x z => PyStr.int (PyStr.strip x) = Ok z) xs zs)
  \/ (comprehension (fun x => PyStr.int (PyStr.strip x)) xs = Raise ValueError
      /\ Exists (fun x => PyStr.int (PyStr.strip x) = Raise ValueError) xs).
Proof.
  induction xs as [|x xs IH]; cbn [comprehension].
  - left. exists []. split; [reflexivity | constructor].
  - destruct (PyStr.int (PyStr.strip x)) as [z|e] eqn:Hx; cbn [bind].
    + destruct IH as [(zs & -> & Hall)|[-> Hex]]; cbn [bind].
      * left. exists (z :: zs). split; [reflexivity | now constructor].
      * right. split; [reflexivity | now apply Exists_cons_tl].
    + assert (e = ValueError) as ->.
      { apply (comprehension_int_raises [x]). cbn [comprehension]. now rewrite Hx. }
      right. split; [reflexivity | now apply Exists_cons_hd].
Qed.

Lemma run_stmt_cases (kwargs filters : dict Value) (stmt : FilterStmt) :
  run_stmt kwargs filters stmt = Ok filters
  \/ exists v, run_stmt kwargs filters stmt = Ok (dict_set filters (stmt_key stmt) v).
Proof.
  destruct stmt as [p key|p key to_int|p key]; cbn [run_stmt stmt_key].
  - destruct (str_argument kwargs p) as [s|]; [|now left].
    destruct (PyStr.truthy s); [right; eexists; reflexivity | now left].
  - destruct (str_argument kwargs p) as [s|]; [|now left].
    destruct (PyStr.truthy s); [|now left].
    rewrite comprehension_items. destruct to_int.
    + destruct (comprehension_int_cases (PyStr.split s ",")) as [(zs & -> & _)|[-> _]];
        cbn; [right; eexists; reflexivity | now left].
    + cbn. right. eexists. reflexivity.
  - destruct (negb (is_none (argument kwargs p))); [right; eexists; reflexivity | now left].
Qed.

Lemma run_body_total (kwargs : dict Value) (body : list FilterStmt) (filters : dict Value) :
  exists out,
    for_each (run_stmt kwargs) body filters = Ok out
    /\ (forall k, In k (dict_keys out) ->
                  In k (dict_keys filters) \/ In k (map stmt_key body))
    /\ (forall k, ~ In k (map stmt_key body) -> dict_get out k = dict_get filters k).
Proof.
  revert filters. induction body as [|stmt body IH]; intros filters; cbn [for_each map].
  - exists filters. repeat split; auto.
  - destruct (run_stmt_cases kwargs filters stmt) as [->|[v ->]]; cbn [bind].
    + destruct (IH filters) as (out & -> & Hkeys & Hget).
      exists out. split; [reflexivity|]. split.
      * intros k Hk. destruct (Hkeys k Hk); [now left | right; now right].
      * intros k Hk. apply Hget. intros H. apply Hk. now right.
    + destruct (IH (dict_set filters (stmt_key stmt) v)) as (out & -> & Hkeys & Hget).
      exists out. split; [reflexivity|]. split.
      * intros k Hk. destruct (Hkeys k Hk) as [H|H]; [|right; now right].
        apply dict_keys_set in H as [->|H]; [right; now left | now left].
      * intros k Hk. rewrite Hget by (intros H; apply Hk; now right).
        apply dict_get_set_other. intros Heq. apply Hk. now left.
Qed.

(** The mapping [collect] returns, around the one statement that writes a
    given key. *)
Lemma collect_at_key (model_class : Model) (kwargs : dict Value) (stmt : FilterStmt) :
  keys_distinct model_class = true ->
  from_field (_get_model_fields model_class exclude_fields) stmt ->
  exists filters out,
    collect model_class kwargs = Ok out
    /\ dict_get filters (stmt_key stmt) = None
    /\ (forall after,
          run_stmt kwargs filters stmt = Ok after ->
          dict_get out (stmt_key stmt) = dict_get after (stmt_key stmt)).
Proof.
  intros Hdistinct Hfrom. unfold collect, keys_distinct, generated_keys in *.
  destruct (create_filter_dependency_total model_class exclude_fields) as (f & Hf & Hbody).
  rewrite Hf in *. cbn [bind]. unfold generated_filter_function.
  apply Hbody in Hfrom. apply in_split in Hfrom as (before & after & Heq).
  rewrite Heq in *. apply distinct_NoDup in Hdistinct.
  rewrite map_app in Hdistinct. cbn [map] in Hdistinct.
  apply NoDup_remove_2 in Hdistinct.
  assert (Hb : ~ In (stmt_key stmt) (map stmt_key before))
    by (intros H; apply Hdistinct, in_or_app; now left).
  assert (Ha : ~ In (stmt_key stmt) (map stmt_key after))
    by (intros H; apply Hdistinct, in_or_app; now right).
  rewrite for_each_app.
  destruct (run_body_total kwargs before []) as (filters & -> & _ & Hget1). cbn [bind for_each].
  exists filters.
  destruct (run_stmt_cases kwargs filters stmt) as [Hrun|[v Hrun]]; rewrite Hrun; cbn [bind].
  - destruct (run_body_total kwargs after filters) as (out & -> & _ & Hget2).
    exists out. split; [reflexivity|]. split; [now rewrite Hget1|].
    intros after' H. injection H as <-. now apply Hget2.
  - destruct (run_body_total kwargs after (dict_set filters (stmt_key stmt) v))
      as (out & -> & _ & Hget2).
    exists out. split; [reflexivity|]. split; [now rewrite Hget1|].
    intros after' H. injection H as <-. now apply Hget2.
Qed.











(** ** Keys of the generated function, read back by the composer *)

Lemma prefix_dunder (c : ascii) (rest : string) :
  prefix "__" (String c rest)
  = Ascii.eqb c "_" && match rest with
                       | String d _ => Ascii.eqb d "_"
                       | EmptyString => false
                       end.
Proof.
  cbn [prefix]. destruct (ascii_dec "_" c) as [<-|Hc].
  - rewrite Ascii.eqb_refl. cbn [andb]. destruct rest as [|d r]; [reflexivity|].
    cbn [prefix]. destruct (ascii_dec "_" d) as [<-|Hd].
    + rewrite Ascii.eqb_refl. apply PyStrFacts.prefix_empty.
    + symmetry. apply Ascii.eqb_neq. congruence.
  - assert (Ascii.eqb c "_" = false) as -> by (apply Ascii.eqb_neq; congruence).
    reflexivity.
Qed.

(** A plain name is never cut by the split on the double underscore. *)
Lemma plain_name_no_prefix (c : ascii) (rest tail : string) :
  plain_name (String c rest) = true ->
  prefix "__" (String c (rest ++ String "_" tail)) = false.
Proof.
  cbn [plain_name]. intros H. apply andb_prop in H as [H _].
  rewrite prefix_dunder. destruct (Ascii.eqb c "_"); [|reflexivity].
  cbn [negb orb andb] in *. destruct rest as [|d r]; [discriminate H|].
  cbn [append]. now destruct (Ascii.eqb d "_").
Qed.

Lemma split_dunder_plain (f t : string) :
  plain_name f = true ->
  PyStr.split (f ++ "__" ++ t) "__" = f :: PyStr.split t "__".
Proof.
  unfold PyStr.split. induction f as [|c rest IH]; intros Hplain.
  - change (("" ++ "__" ++ t)%string) with (String "_" (String "_" t)).
    cbn [PyStr.split_from]. rewrite prefix_dunder. reflexivity.
  - change ((String c rest ++ "__" ++ t)%string)
      with (String c (rest ++ String "_" (String "_" t))%string).
    cbn [PyStr.split_from]. rewrite (plain_name_no_prefix c rest _ Hplain).
    change ((rest ++ String "_" (String "_" t))%string) with ((rest ++ "__" ++ t)%string).
    rewrite IH; [reflexivity|]. cbn [plain_name] in Hplain.
    now apply andb_prop in Hplain.
Qed.

Lemma split_plain (f : string) :
  plain_name f = true -> PyStr.split f "__" = [f].
Proof.
  unfold PyStr.split. induction f as [|c rest IH]; intros Hplain; [reflexivity|].
  cbn [PyStr.split_from]. rewrite prefix_dunder.
  cbn [plain_name] in Hplain. apply andb_prop in Hplain as [Hc Hrest].
  rewrite (IH Hrest).
  destruct (Ascii.eqb c "_"); [|reflexivity].
  cbn [negb orb andb] in *. destruct rest as [|d r]; [discriminate Hc|].
  now destruct (Ascii.eqb d "_").
Qed.

Lemma operator_suffix (op suffix : string) :
  In (op, suffix) OPERATOR_MAPPING ->
  suffix = "" \/ exists o, suffix = ("__" ++ SQLOperators_value o)%string.
Proof.
  cbn. intros H.
  repeat (destruct H as [H|H]; [injection H as _ <-|]); try contradiction;
    [now left | right ..].
  - now exists ilike.
  - now exists gt.
  - now exists gte.
  - now exists lt.
  - now exists lte.
  - now exists _in.
Qed.

Lemma plain_key_supported (f : string) (k : string) :
  plain_name f = true ->
  k = f \/ (exists o, k = (f ++ "__" ++ SQLOperators_value o)%string) ->
  key_column k = f /\ supported_operator (key_operator k) = true.
Proof.
  intros Hplain [->|[o ->]]; unfold key_column, key_operator.
  - rewrite (split_plain f Hplain). split; reflexivity.
  - rewrite (split_dunder_plain f _ Hplain). split; [reflexivity|]. now destruct o.
Qed.

Lemma collect_keys (model_class : Model) (kwargs filters : dict Value) (k : string) :
  collect model_class kwargs = Ok filters ->
  In k (dict_keys filters) ->
  exists f,
    In f (map fst (columns model_class)) /\ str_in f exclude_fields = false
    /\ (k = f \/ exists o, k = (f ++ "__" ++ SQLOperators_value o)%string).
Proof.
  unfold collect.
  destruct (create_filter_dependency_total model_class exclude_fields) as (g & -> & Hbody).
  cbn [bind]. unfold generated_filter_function.
  destruct (run_body_total kwargs (function_body g) []) as (out & -> & Hkeys & _).
  intros H. injection H as ->. intros Hk.
  destruct (Hkeys k Hk) as [[]|Hstmt].
  apply in_map_iff in Hstmt as (stmt & <- & Hstmt). apply Hbody in Hstmt.
  destruct Hstmt as (f & t & op & Hfield & _ & Hgen).
  apply generate_stmt_key in Hgen as (suffix & Hsuffix & ->).
  apply model_fields_In in Hfield as [Hcol Hex].
  exists f. split; [now apply (in_map fst) in Hcol|]. split; [exact Hex|].
  destruct (operator_suffix _ _ Hsuffix) as [->|[o ->]].
  - left. clear. induction f as [|c f IH]; [reflexivity | cbn; now rewrite IH].
  - right. now exists o.
Qed.

(** C10, as the code has it. Every key of a mapping the generated
    function returns is the name of a filterable column of the model, bare
    or followed by a double underscore and one of the operators the
    composer accepts. When every column name of the model is plain (no
    double underscore inside, no underscore at the end), the composer reads
    a supported operator back from each key and never raises 422 on the
    mapping. *)
Theorem generated_keys_are_supported
        (model_class : Model) (kwargs filters : dict Value) :
  collect model_class kwargs = Ok filters ->
  (forall k,
      In k (dict_keys filters) ->
      exists f,
        In f (map fst (columns model_class)) /\ str_in f exclude_fields = false
        /\ (k = f \/ exists o, k = (f ++ "__" ++ SQLOperators_value o)%string))
  /\ (plain_columns model_class = true ->
      (forall k, In k (dict_keys filters) ->
                 supported_operator (key_operator k) = true)
      /\ (forall statement,
             set_filters statement model_class filters <> Raise (HTTPException 422))).
Proof.
  intros Hcollect. split; [intros k; now apply (collect_keys _ kwargs)|].
  intros Hplain.
  assert (Hkeys : forall k, In k (dict_keys filters) ->
                            supported_operator (key_operator k) = true).
  { intros k Hk. destruct (collect_keys _ _ _ _ Hcollect Hk) as (f & Hf & _ & Hform).
    unfold plain_columns in Hplain. rewrite forallb_forall in Hplain.
    now apply (plain_key_supported f k (Hplain f Hf)). }
  split; [exact Hkeys|]. intros statement Hraise.
  apply set_filters_raises in Hraise as [H|[H|[H|(_ & k & v & Hin & Hop)]]];
    try discriminate H.
  rewrite (Hkeys k) in Hop; [discriminate|]. now apply (in_map fst) in Hin.
Qed.

Lemma generated_keys_are_supported_witness :
  let kwargs := [("filter_name_like", VStr "bob"); ("filter_id_in", VStr "1,2");
                 ("filter_region_id_eq", VInt 7)] in
  let filters := [("name__ilike", VStr "%bob%"); ("region_id", VInt 7);
                  ("id__in", VList [VInt 1; VInt 2])] in
  collect City kwargs = Ok filters
  /\ plain_columns City = true
  /\ set_filters select City filters <> Raise (HTTPException 422)
  /\ set_filters select City filters
     = Ok {| whereclause := [Compare ilike "name" (VStr "%bob%");
                             Compare eq "region_id" (VInt 7);
                             Compare _in "id" (VList [VInt 1; VInt 2])];
             order_by_clauses := []; offset_clause := None; limit_clause := None |}.
Proof.
  intros kwargs filters.
  destruct (generated_keys_are_supported City kwargs filters eq_refl) as [_ Hno].
  destruct (Hno eq_refl) as [_ Hno422].
  split; [reflexivity|]. split; [reflexivity|]. split; [apply Hno422 | reflexivity].
Defined.

(** C10 as stated fails for a column whose name ends in an underscore:
    the key [type___ilike] of the generated function is split by the
    composer into the column [type] and the operator [_ilike], and the
    request ends in 422. *)
Lemma generated_key_reaches_422 :
  collect Tagged [("filter_type__like", VStr "x")] = Ok [("type___ilike", VStr "%x%")]
  /\ set_filters select Tagged [("type___ilike", VStr "%x%")] = Raise (HTTPException 422)
  /\ key_column "type___ilike" = "type"
  /\ key_operator "type___ilike" = "_ilike".
Proof. repeat split; reflexivity. Qed.

(** * Further properties *)

(** ** Pages of a result *)

Lemma chunks_concat {A : Type} (n m : nat) (l : list A) :
  (0 < n)%nat -> (length l <= m * n)%nat ->
  concat (map (fun k => firstn n (skipn (k * n) l)) (seq 0 m)) = l.
Proof.
  intros Hn. revert l. induction m as [|m IH]; intros l Hlen.
  - destruct l; [reflexivity | cbn in Hlen; lia].
  - cbn [seq map concat]. rewrite <- seq_shift, map_map.
    change (skipn (0 * n) l) with l.
    transitivity (firstn n l ++ skipn n l); [|apply firstn_skipn].
    f_equal.
    transitivity (concat (map (fun k => firstn n (skipn (k * n) (skipn n l)))
                              (seq 0 m)));
      [|apply IH; rewrite length_skipn; lia].
    f_equal. apply map_ext. intros k. f_equal.
    rewrite skipn_skipn. f_equal. cbn. lia.
Qed.

Lemma exec_all_unwindowed (session : Session) (statement : Statement) :
  unwindowed statement -> exec_all session statement = matching session statement.
Proof.
  intros [Ho Hl]. unfold exec_all, window, matching. now rewrite Ho, Hl.
Qed.

Lemma page_request_Ok (session : Session) (model_db : Model) (statement : Statement)
      (size : Z) (k : nat) :
  (1 <= size < 2 ^ 63)%Z ->
  (Z.of_nat k * size < 2 ^ 63)%Z ->
  page_request session model_db statement size (S k)
  = Ok (envelope session {| page := Z.of_nat (S k); per_page := size |} statement).
Proof.
  intros Hsize Hoffset. unfold page_request.
  apply set_offset_limit_Ok; cbn [page per_page]; lia.
Qed.

Lemma page_data_chunk (session : Session) (model_db : Model) (statement : Statement)
      (size : Z) (k : nat) :
  (1 <= size < 2 ^ 63)%Z ->
  (Z.of_nat k * size < 2 ^ 63)%Z ->
  page_data session model_db statement size (S k)
  = firstn (Z.to_nat size)
      (skipn (k * Z.to_nat size) (matching session statement)).
Proof.
  intros Hsize Hoffset. unfold page_data.
  rewrite (page_request_Ok _ _ _ _ _ Hsize Hoffset).
  unfold envelope. cbn [data page per_page].
  rewrite exec_all_window. fold (matching session statement). do 2 f_equal. nia.
Qed.

(** The pages of a request, one after the other, are the whole result: no
    row is skipped and none is shown twice. The page size and the number of
    rows are within what the database counts, so that every page is
    answered. *)
Theorem pages_cover_the_result
        (session : Session) (model_db : Model) (statement : Statement) (size : Z) :
  unwindowed statement ->
  (1 <= size < 2 ^ 63)%Z ->
  (exec_count session statement <= 2 ^ 63)%Z ->
  exists first,
    set_offset_limit session {| page := 1; per_page := size |} model_db statement
    = Ok first
    /\ Forall (fun k => answered (page_request session model_db statement size k))
              (seq 1 (Z.to_nat (pages first)))
    /\ concat (map (page_data session model_db statement size)
                   (seq 1 (Z.to_nat (pages first))))
       = exec_all session statement.
Proof.
  intros Hwin Hsize Hcount.
  exists (envelope session {| page := 1; per_page := size |} statement).
  split; [apply set_offset_limit_Ok; cbn [page per_page]; lia|].
  unfold envelope. cbn [pages per_page].
  set (last := Z.to_nat ((exec_count session statement + size - 1) / size)).
  pose proof (pages_formula (exec_count session statement) size ltac:(lia))
    as [Hlow Hup].
  assert (Hbelow : forall k, (k < last)%nat -> (Z.of_nat k * size < 2 ^ 63)%Z).
  { intros k Hk. subst last.
    assert (0 <= exec_count session statement)%Z by (unfold exec_count; lia).
    nia. }
  split.
  - apply Forall_forall. intros k Hk. apply in_seq in Hk.
    destruct k as [|k]; [lia|]. eexists. apply page_request_Ok; [lia|].
    apply Hbelow. lia.
  - rewrite (exec_all_unwindowed _ _ Hwin).
    rewrite <- seq_shift, map_map.
    rewrite (map_ext_in _ (fun k => firstn (Z.to_nat size)
                                      (skipn (k * Z.to_nat size)
                                             (matching session statement)))).
    + apply chunks_concat; [lia|].
      subst last. unfold exec_count in *.
      rewrite (exec_all_unwindowed _ _ Hwin) in *. nia.
    + intros k Hk. apply in_seq in Hk. apply page_data_chunk; [lia|].
      apply Hbelow. lia.
Qed.

Lemma pages_cover_the_result_witness :
  let session := plain_session [row_of 1 active; row_of 2 active; row_of 3 deleted;
                                row_of 4 active] in
  let statement := set_status select City active in
  unwindowed statement
  /\ exists first,
       set_offset_limit session {| page := 1; per_page := 2 |} City statement = Ok first
       /\ pages first = 2%Z
       /\ concat (map (page_data session City statement 2) (seq 1 2))
          = [row_of 1 active; row_of 2 active; row_of 4 active].
Proof.
  intros session statement.
  assert (Hwin : unwindowed statement) by (split; reflexivity).
  split; [exact Hwin|].
  destruct (pages_cover_the_result session City statement 2 Hwin
              ltac:(lia) ltac:(vm_compute; discriminate))
    as (first & Hfirst & _ & Hpages).
  exists first. split; [exact Hfirst|].
  assert (Hlast : pages first = 2%Z)
    by (vm_compute in Hfirst; injection Hfirst as <-; reflexivity).
  split; [exact Hlast|]. rewrite Hlast in Hpages. exact Hpages.
Defined.

Lemma In_firstn_skipn {A : Type} (n o : nat) (l : list A) (x : A) :
  In x (firstn n (skipn o l)) -> In x l.
Proof.
  intros H. rewrite <- (firstn_skipn o l). apply in_or_app. right.
  rewrite <- (firstn_skipn n (skipn o l)). apply in_or_app. now left.
Qed.

(** The number of rows on a page whose offset the database takes: it is the
    rest of the result after the offset, cut at [per_page]. Pages before
    the last are full, a page after the last is empty, an empty result has
    only empty pages, and every row shown is a row of the result. *)
Theorem page_size
        (session : Session) (model_db : Model) (statement : Statement)
        (pagination : PaginationParams) :
  unwindowed statement ->
  (1 <= page pagination)%Z ->
  (1 <= per_page pagination < 2 ^ 63)%Z ->
  ((page pagination - 1) * per_page pagination < 2 ^ 63)%Z ->
  exists r,
    set_offset_limit session pagination model_db statement = Ok r
    /\ Z.of_nat (length (data r))
       = Z.max 0 (Z.min (per_page pagination)
                        (total_records r - (page pagination - 1) * per_page pagination))
    /\ ((page pagination < pages r)%Z ->
        Z.of_nat (length (data r)) = per_page pagination)
    /\ ((pages r < page pagination)%Z -> data r = [])
    /\ (total_records r = 0%Z -> data r = [])
    /\ incl (data r) (exec_all session statement).
Proof.
  intros Hwin Hpage Hpp Hoffset.
  exists (envelope session pagination statement).
  split; [now apply set_offset_limit_Ok|].
  unfold envelope.
  cbn [data pages total_records]. rewrite exec_all_window.
  fold (matching session statement). unfold exec_count.
  rewrite (exec_all_unwindowed _ _ Hwin).
  set (l := matching session statement).
  pose proof (pages_formula (Z.of_nat (length l)) (per_page pagination) ltac:(lia))
    as [Hlow Hup].
  assert (Hlen : Z.of_nat (length (firstn (Z.to_nat (per_page pagination))
                                     (skipn (Z.to_nat ((page pagination - 1)
                                                       * per_page pagination)) l)))
                 = Z.max 0 (Z.min (per_page pagination)
                                  (Z.of_nat (length l)
                                   - (page pagination - 1) * per_page pagination))).
  { rewrite length_firstn, length_skipn. nia. }
  split; [exact Hlen|]. split; [intros Hlt; rewrite Hlen; nia|].
  split; [intros Hgt; apply length_zero_iff_nil; nia|].
  split; [intros Hzero; apply length_zero_iff_nil; nia|].
  intros row Hrow. unfold l.
  apply (In_firstn_skipn _ _ _ _ Hrow).
Qed.

Lemma page_size_witness :
  let session := plain_session (repeat (row_of 1 active) 25) in
  unwindowed select
  /\ exists r,
       set_offset_limit session {| page := 3; per_page := 10 |} City select = Ok r
       /\ Z.of_nat (length (data r)) = 5%Z.
Proof.
  intros session.
  assert (Hwin : unwindowed select) by (split; reflexivity).
  split; [exact Hwin|].
  destruct (page_size session City select {| page := 3; per_page := 10 |}
              Hwin ltac:(cbn; lia) ltac:(cbn; lia) ltac:(cbn; lia))
    as (r & Hr & Hlen & _).
  exists r. split; [exact Hr|]. rewrite Hlen.
  vm_compute in Hr. injection Hr as <-. reflexivity.
Defined.

(** ** Sorting, called as it is declared *)

Lemma with_order_nil (statement : Statement) : with_order statement [] = statement.
Proof. unfold with_order. rewrite app_nil_r. now destruct statement. Qed.

Lemma order_by_each_any (model_db : Model) (cols orders seen : list string)
      (statement : Statement) :
  length cols = length orders ->
  Forall (known_column model_db) cols ->
  for_each
    (fun statement (item : nat * string) =>
       let '(idx, column_name) := item in
       match getattr model_db column_name with
       | None => Raise ArgumentError
       | Some column =>
           let order := nth idx (seen ++ orders) "" in
           Ok (order_by statement
                 (if String.eqb order "asc" then asc column else desc column))
       end)
    (combine (seq (length seen) (length cols)) cols) statement
  = Ok (with_order statement (map order_clause (combine cols orders))).
Proof. apply order_by_each. Qed.

Lemma orders_rejected (orders : list string) :
  Exists (fun o => ~ valid_order o) orders ->
  for_each (fun (_ : unit) order =>
              if negb (str_in order ["asc"; "desc"]) then Raise ValueError else Ok tt)
           orders tt
  = Raise ValueError.
Proof.
  induction 1 as [o orders Ho|o orders _ IH]; cbn [for_each].
  - assert (str_in o ["asc"; "desc"] = false) as ->; [|reflexivity].
    destruct (str_in o ["asc"; "desc"]) eqn:Hin; [|reflexivity].
    exfalso. apply Ho. apply str_in_In in Hin. cbn in Hin. unfold valid_order.
    intuition auto.
  - destruct (negb (str_in o ["asc"; "desc"])); [reflexivity|]. exact IH.
Qed.

Lemma repeat_valid (o : string) (n : nat) :
  valid_order o -> Forall (fun x => x = "asc" \/ x = "desc") (repeat o n).
Proof. intros Ho. induction n; cbn; constructor; auto. Qed.

Lemma all_ascending (cols : list string) :
  map order_clause (combine cols (repeat "asc" (length cols))) = map asc cols.
Proof. induction cols as [|c cols IH]; cbn; [reflexivity | now rewrite IH]. Qed.

(** With known columns, [apply_sorting] adds one clause per column, in
    column order: the order of the same position when a list of valid orders
    of the same length is given, the one order for all when a single valid
    order is given, ascending when no order is given (none, an empty string
    or an empty list). A single column name counts as a list of one. *)
Theorem apply_sorting_adds_clauses
        (statement : Statement) (model_db : Model) (cols : list string) :
  cols <> [] ->
  Forall (known_column model_db) cols ->
  (forall orders,
      length cols = length orders ->
      Forall valid_order orders ->
      apply_sorting statement model_db (StrList cols) (Some (StrList orders))
      = Ok (with_order statement (map order_clause (combine cols orders))))
  /\ (forall o,
        valid_order o ->
        apply_sorting statement model_db (StrList cols) (Some (Str o))
        = Ok (with_order statement
                (map (fun c => order_clause (c, o)) cols)))
  /\ (forall absent,
        absent = None \/ absent = Some (Str "") \/ absent = Some (StrList []) ->
        apply_sorting statement model_db (StrList cols) absent
        = Ok (with_order statement (map asc cols)))
  /\ (forall c,
        cols = [c] -> c <> "" ->
        apply_sorting statement model_db (Str c) None
        = Ok (with_order statement [asc c])).
Proof.
  intros Hcols Hknown.
  assert (Hasc : forall n, n = length cols ->
             for_each
               (fun statement (item : nat * string) =>
                  let '(idx, column_name) := item in
                  match getattr model_db column_name with
                  | None => Raise ArgumentError
                  | Some column =>
                      let order := nth idx (repeat "asc" n) "" in
                      Ok (order_by statement
                            (if String.eqb order "asc" then asc column else desc column))
                  end)
               (combine (seq 0 (length cols)) cols) statement
             = Ok (with_order statement (map asc cols))).
  { intros n ->. rewrite <- all_ascending.
    apply (order_by_each_any model_db cols (repeat "asc" (length cols)) []);
      [now rewrite repeat_length | exact Hknown]. }
  split; [|split; [|split]].
  - intros orders Hlen Hvalid. unfold apply_sorting.
    destruct cols as [|c cols]; [congruence|].
    destruct orders as [|o orders]; [discriminate Hlen|].
    cbn [StrOrList_truthy negb andb].
    rewrite (proj2 (Nat.eqb_eq _ _) Hlen). cbn [negb].
    rewrite (sort_orders_accepted _ Hvalid). cbn [bind].
    exact (order_by_each_any model_db (c :: cols) (o :: orders) [] statement Hlen Hknown).
  - intros o Ho. unfold apply_sorting.
    destruct cols as [|c cols]; [congruence|].
    assert (Htruthy : PyStr.truthy o = true) by (destruct Ho as [-> | ->]; reflexivity).
    cbn [StrOrList_truthy negb andb]. rewrite Htruthy. cbn [negb andb].
    rewrite repeat_length, Nat.eqb_refl. cbn [negb].
    rewrite (sort_orders_accepted _ (repeat_valid o _ Ho)). cbn [bind].
    refine (eq_trans
              (order_by_each_any model_db (c :: cols) (repeat o (length (c :: cols))) []
                 statement (eq_sym (repeat_length _ _)) Hknown) _).
    do 2 f_equal. clear. generalize (c :: cols). intros l.
    induction l as [|x l IH]; cbn; [reflexivity | now rewrite IH].
  - intros absent Habsent. unfold apply_sorting.
    destruct cols as [|c cols]; [congruence|].
    destruct Habsent as [-> | [-> | ->]]; cbn [StrOrList_truthy PyStr.truthy negb andb bind];
      exact (Hasc _ eq_refl).
  - intros c -> Hc. unfold apply_sorting.
    assert (Htruthy : PyStr.truthy c = true) by (destruct c; [congruence | reflexivity]).
    cbn [StrOrList_truthy negb andb]. rewrite Htruthy. cbn [bind].
    exact (Hasc 1%nat eq_refl).
Qed.

Lemma apply_sorting_adds_clauses_witness :
  apply_sorting select City (StrList ["name"; "id"]) (Some (StrList ["desc"; "asc"]))
  = Ok (with_order select [desc "name"; asc "id"])
  /\ apply_sorting select City (StrList ["name"; "id"]) (Some (Str "desc"))
     = Ok (with_order select [desc "name"; desc "id"])
  /\ apply_sorting select City (StrList ["name"; "id"]) None
     = Ok (with_order select [asc "name"; asc "id"]).
Proof.
  assert (Hknown : Forall (known_column City) ["name"; "id"])
    by (repeat constructor).
  destruct (apply_sorting_adds_clauses select City ["name"; "id"]
              ltac:(discriminate) Hknown) as (Hlist & Hone & Hnone & _).
  split; [|split].
  - apply (Hlist ["desc"; "asc"] eq_refl).
    constructor; [now right | constructor; [now left | constructor]].
  - apply (Hone "desc"). now right.
  - apply (Hnone None). now left.
Defined.

Lemma getattr_Some (model_db : Model) (name column : string) :
  getattr model_db name = Some column -> column = name.
Proof.
  unfold getattr. destruct (str_in name (map fst (columns model_db)));
    [intros H; now injection H | discriminate].
Qed.

Lemma order_loop_Ok (model_db : Model) (cols orders : list string) (k : nat)
      (statement statement' : Statement) :
  for_each
    (fun statement (item : nat * string) =>
       let '(idx, column_name) := item in
       match getattr model_db column_name with
       | None => Raise ArgumentError
       | Some column =>
           let order := nth idx orders "" in
           Ok (order_by statement
                 (if String.eqb order "asc" then asc column else desc column))
       end)
    (combine (seq k (length cols)) cols) statement
  = Ok statement' ->
  exists added,
    statement' = with_order statement added
    /\ length added = length cols.
Proof.
  revert k statement. induction cols as [|c cols IH]; intros k statement;
    cbn [length seq combine for_each].
  - intros H. injection H as <-. exists []. rewrite with_order_nil. now split.
  - destruct (getattr model_db c) as [column|] eqn:Hc; [|discriminate].
    cbn [bind]. intros H. apply IH in H as (added & -> & Hlen).
    exists ((if String.eqb (nth k orders "") "asc" then asc column else desc column)
            :: added).
    split.
    + unfold with_order, order_by. cbn. now rewrite <- app_assoc.
    + cbn [length]. now rewrite Hlen.
Qed.

(** Whatever its arguments, when [apply_sorting] returns it has only added
    ordering clauses after the ones the statement had, one for each column
    name it was given. Criteria, offset and limit are untouched. *)
Theorem apply_sorting_only_adds
        (statement statement' : Statement) (model_db : Model)
        (sort_columns : StrOrList) (sort_orders : option StrOrList) :
  apply_sorting statement model_db sort_columns sort_orders = Ok statement' ->
  exists added,
    statement' = with_order statement added
    /\ length added = length (sort_column_list sort_columns)
    /\ whereclause statement' = whereclause statement
    /\ offset_clause statement' = offset_clause statement
    /\ limit_clause statement' = limit_clause statement.
Proof.
  intros H.
  assert (Hadded : exists added,
             statement' = with_order statement added
             /\ length added = length (sort_column_list sort_columns)).
  { revert H. unfold apply_sorting.
    destruct (match sort_orders with
              | Some o => StrOrList_truthy o
              | None => false
              end && negb (StrOrList_truthy sort_columns)); [discriminate|].
    destruct (StrOrList_truthy sort_columns) eqn:Htruthy.
    - assert (Hlist : match sort_columns with
                      | StrList l => l
                      | Str s => [s]
                      end = sort_column_list sort_columns).
      { destruct sort_columns as [s|l]; [|reflexivity]. cbn in Htruthy |- *.
        now rewrite Htruthy. }
      rewrite Hlist.
      match goal with
      | |- bind ?m _ = _ -> _ => destruct m as [validated|e]; [|discriminate]
      end.
      cbn [bind]. apply order_loop_Ok.
    - intros H. injection H as <-. exists []. rewrite with_order_nil.
      destruct sort_columns as [s|[|c l]]; cbn in Htruthy |- *;
        try discriminate Htruthy; [rewrite Htruthy|]; now split. }
  destruct Hadded as (added & -> & Hlen). exists added. now repeat split.
Qed.

Lemma apply_sorting_only_adds_witness :
  exists added,
    with_order (order_by (set_status select City active) (asc "id")) [desc "name"]
    = with_order (order_by (set_status select City active) (asc "id")) added
    /\ length added = 1%nat
    /\ whereclause (with_order (order_by (set_status select City active) (asc "id"))
                               [desc "name"])
       = [StatusEq active].
Proof.
  destruct (apply_sorting_only_adds (order_by (set_status select City active) (asc "id"))
              _ City (Str "name") (Some (Str "desc")) eq_refl)
    as (added & Hadded & Hlen & Hwhere & _).
  exists added. split; [exact Hadded|]. split; [exact Hlen | exact Hwhere].
Defined.

(** The refusals of [apply_sorting] that come before any column is looked
    up, in the order the code checks them: orders without columns, lists of
    different lengths, an order that is neither [asc] nor [desc], all
    [ValueError]. Without columns and without orders the statement is
    returned as it is. *)
Theorem apply_sorting_refusals (statement : Statement) (model_db : Model) :
  (forall sort_columns orders,
      StrOrList_truthy orders = true ->
      StrOrList_truthy sort_columns = false ->
      apply_sorting statement model_db sort_columns (Some orders) = Raise ValueError)
  /\ (forall cols orders,
        cols <> [] -> orders <> [] -> length cols <> length orders ->
        apply_sorting statement model_db (StrList cols) (Some (StrList orders))
        = Raise ValueError)
  /\ (forall cols orders,
        cols <> [] -> length cols = length orders ->
        Exists (fun o => ~ valid_order o) orders ->
        apply_sorting statement model_db (StrList cols) (Some (StrList orders))
        = Raise ValueError)
  /\ (forall cols o,
        cols <> [] -> o <> "" -> ~ valid_order o ->
        apply_sorting statement model_db (StrList cols) (Some (Str o))
        = Raise ValueError)
  /\ (forall sort_columns,
        StrOrList_truthy sort_columns = false ->
        apply_sorting statement model_db sort_columns None = Ok statement).
Proof.
  refine (conj _ (conj _ (conj _ (conj _ _)))).
  - intros sort_columns orders Ho Hc. unfold apply_sorting. now rewrite Ho, Hc.
  - intros [|c cols] [|o orders] Hc Ho Hlen; try congruence.
    unfold apply_sorting. cbn [StrOrList_truthy negb andb].
    now rewrite (proj2 (Nat.eqb_neq _ _) Hlen).
  - intros [|c cols] [|o orders] Hc Hlen Hbad; try congruence;
      try discriminate Hlen.
    unfold apply_sorting. cbn [StrOrList_truthy negb andb].
    rewrite (proj2 (Nat.eqb_eq _ _) Hlen). cbn [negb].
    now rewrite (orders_rejected _ Hbad).
  - intros [|c cols] o Hc Ho Hbad; [congruence|].
    assert (Htruthy : PyStr.truthy o = true) by (destruct o; [congruence | reflexivity]).
    unfold apply_sorting. cbn [StrOrList_truthy negb andb]. rewrite Htruthy.
    cbn [negb andb]. rewrite repeat_length, Nat.eqb_refl. cbn [negb].
    rewrite orders_rejected; [reflexivity|]. cbn [length repeat].
    now apply Exists_cons_hd.
  - intros sort_columns Hc. unfold apply_sorting. now rewrite Hc.
Qed.

Lemma apply_sorting_refusals_witness :
  apply_sorting select City (StrList []) (Some (Str "asc")) = Raise ValueError
  /\ apply_sorting select City (StrList ["nocol"]) (Some (StrList ["asc"; "desc"]))
     = Raise ValueError
  /\ apply_sorting select City (StrList ["nocol"]) (Some (StrList ["up"]))
     = Raise ValueError
  /\ apply_sorting select City (StrList ["name"]) (Some (Str "ASC")) = Raise ValueError.
Proof.
  destruct (apply_sorting_refusals select City)
    as (Hempty & Hlen & Hbad & Hone & _).
  split; [exact (Hempty (StrList []) (Str "asc") eq_refl eq_refl)|].
  split; [apply Hlen; discriminate|].
  split.
  - apply Hbad; [discriminate | reflexivity |].
    apply Exists_cons_hd. intros [H|H]; discriminate H.
  - apply Hone; [discriminate | discriminate |]. intros [H|H]; discriminate H.
Defined.

(** ** Filter mappings the composer accepts *)

Lemma with_criteria_nil (statement : Statement) : with_criteria statement [] = statement.
Proof. unfold with_criteria. rewrite app_nil_r. now destruct statement. Qed.

Lemma with_criteria_cons (statement : Statement) (c : Criterion) (cs : list Criterion) :
  with_criteria (where_ statement c) cs = with_criteria statement (c :: cs).
Proof. unfold with_criteria, where_. cbn. now rewrite <- app_assoc. Qed.


Lemma apply_filter_shape (model_db : Model) (statement statement' : Statement)
      (k : string) (v : Value) :
  apply_filter model_db statement (k, v) = Ok statement' ->
  exists c,
    statement' = where_ statement c
    /\ (comparison_of (k, v) c
        \/ (getattr model_db (key_column k) = None
            /\ is_operator (key_operator k) eq = true
            /\ c = Const (is_none v))).
Proof.
  unfold apply_filter, comparison_of. fold (key_operator k) (key_column k).
  cbn [fst snd].
  destruct (getattr model_db (key_column k)) as [column|] eqn:Hcol.
  - pose proof (getattr_Some _ _ _ Hcol) as ->.
    repeat case_operator; cbn; try destruct v; cbn; intros H; try discriminate H;
      injection H as <-;
      eexists; (split; [reflexivity|]); left; eexists; (split; [eassumption | reflexivity]).
  - repeat case_operator; cbn; intros H; try discriminate H; injection H as <-.
    eexists. split; [reflexivity|]. right. auto.
Qed.





(** When [set_filters] returns, it has only added criteria after the ones
    the statement had, one per entry and in the order of the mapping: a
    comparison with the value of the entry, under the operator of its key,
    or a constant truth value. Ordering, offset and limit are untouched. *)
Theorem set_filters_only_adds
        (statement statement' : Statement) (model_db : Model) (filters : dict Value) :
  set_filters statement model_db filters = Ok statement' ->
  exists criteria,
    statement' = with_criteria statement criteria
    /\ Forall2
         (fun item c => comparison_of item c \/ exists b, c = Const b)
         filters criteria
    /\ order_by_clauses statement' = order_by_clauses statement
    /\ offset_clause statement' = offset_clause statement
    /\ limit_clause statement' = limit_clause statement.
Proof.
  assert (Hloop : forall st st',
             for_each (apply_filter model_db) filters st = Ok st' ->
             exists criteria,
               st' = with_criteria st criteria
               /\ Forall2
                    (fun item c => comparison_of item c \/ exists b, c = Const b)
                    filters criteria).
  { induction filters as [|[k v] filters IH]; intros st st'; cbn [for_each].
    - intros H. injection H as <-. exists []. rewrite with_criteria_nil.
      split; [reflexivity | constructor].
    - destruct (apply_filter model_db st (k, v)) as [st1|e] eqn:Hstep;
        cbn [bind]; [|discriminate].
      apply apply_filter_shape in Hstep as (c & -> & Hc).
      intros H. apply IH in H as (cs & -> & Hcs).
      exists (c :: cs). rewrite with_criteria_cons.
      split; [reflexivity|]. constructor; [|exact Hcs].
      destruct Hc as [Hc | (_ & _ & ->)]; [now left | right; now eexists]. }
  intros H.
  assert (Hadded : exists criteria,
             statement' = with_criteria statement criteria
             /\ Forall2
                  (fun item c => comparison_of item c \/ exists b, c = Const b)
                  filters criteria).
  { revert H. unfold set_filters. destruct filters as [|item filters].
    - intros H. injection H as <-. exists []. rewrite with_criteria_nil.
      split; [reflexivity | constructor].
    - destruct (for_each copy_filter (item :: filters) []); cbn [bind]; [|discriminate].
      apply Hloop. }
  destruct Hadded as (criteria & -> & Hcriteria). exists criteria. now repeat split.
Qed.

Lemma set_filters_only_adds_witness :
  exists criteria,
    with_criteria (set_status select City active)
      [Compare eq "name" (VStr "a"); Const false]
    = with_criteria (set_status select City active) criteria
    /\ Forall2
         (fun item c => comparison_of item c \/ exists b, c = Const b)
         [("name", VStr "a"); ("nocol", VInt 1)] criteria.
Proof.
  destruct (set_filters_only_adds (set_status select City active) _ City
              [("name", VStr "a"); ("nocol", VInt 1)] eq_refl)
    as (criteria & Hadded & Hcriteria & _).
  exists criteria. split; [exact Hadded | exact Hcriteria].
Defined.

(** A key that starts with [created_at] must carry a datetime: with any
    other value under such a key, whatever the rest of the mapping holds,
    the request ends in [AttributeError], before any criterion is built. *)
Theorem created_at_needs_a_datetime
        (statement : Statement) (model_db : Model) (filters : dict Value)
        (k : string) (v : Value) :
  In (k, v) filters ->
  PyStr.startswith k "created_at" = true ->
  isoformat v = Raise AttributeError ->
  set_filters statement model_db filters = Raise AttributeError.
Proof.
  intros Hin Hkey Hv. unfold set_filters.
  destruct filters as [|item filters]; [contradiction|].
  destruct (for_each_stops copy_filter (item :: filters) (k, v) [] Hin) as [e He].
  { intros acc. exists AttributeError. unfold copy_filter. now rewrite Hkey, Hv. }
  rewrite He. cbn [bind]. f_equal.
  apply for_each_raises in He as (acc & x & _ & Hraise).
  eapply copy_filter_raises; eauto.
Qed.

Lemma created_at_needs_a_datetime_witness :
  set_filters select City
    [("name__bogus", VStr "x"); ("created_at_note", VStr "2024-01-01")]
  = Raise AttributeError.
Proof.
  apply (created_at_needs_a_datetime select City _ "created_at_note" (VStr "2024-01-01"));
    [right; now left | reflexivity | reflexivity].
Defined.

(** ** Shape of the generated function *)

Lemma dict_set_fresh {V : Type} (d : dict V) (k : string) (v : V) :
  ~ In k (dict_keys d) -> dict_set d k v = d ++ [(k, v)].
Proof.
  induction d as [|[k' v'] d IH]; cbn; [reflexivity|]. intros Hnot.
  destruct (String.eqb_spec k' k) as [->|Hne]; [tauto|].
  rewrite IH; [reflexivity | tauto].
Qed.

Lemma dict_set_keys_NoDup {V : Type} (d : dict V) (k : string) (v : V) :
  NoDup (dict_keys d) -> NoDup (dict_keys (dict_set d k v)).
Proof.
  unfold dict_keys. induction d as [|[k' v'] d IH]; cbn [dict_set map fst].
  - intros _. repeat constructor. intros [].
  - intros Hnd. inversion Hnd as [|? ? Hnot Hrest]; subst.
    destruct (String.eqb_spec k' k) as [->|Hne]; cbn [map fst]; [exact Hnd|].
    constructor; [|now apply IH].
    intros Hin. apply (dict_keys_set d k k' v) in Hin as [Heq|Hin]; auto.
Qed.

Lemma dict_keys_set_In {V : Type} (d : dict V) (k x : string) (v : V) :
  In x (dict_keys (dict_set d k v)) <-> x = k \/ In x (dict_keys d).
Proof.
  split; [apply dict_keys_set|]. unfold dict_keys.
  induction d as [|[k' v'] d IH]; cbn [dict_set map fst In].
  - intros [->|[]]. now left.
  - destruct (String.eqb_spec k' k) as [->|Hne]; cbn [map fst In].
    + intros [->|[->|H]]; auto.
    + intros [->|[->|H]]; auto.
Qed.

Lemma NoDup_distinct (xs : list string) : NoDup xs -> distinct xs = true.
Proof.
  induction 1 as [|x xs Hnot _ IH]; cbn; [reflexivity|]. rewrite IH, andb_true_r.
  destruct (str_in x xs) eqn:Hin; [|reflexivity]. apply str_in_In in Hin. tauto.
Qed.

(** The model fields are a dictionary: every column that is not excluded,
    once. The helper [get_model_fields] lists the same names, and for a
    table whose column names are all different both follow the column
    order. *)
Theorem model_fields_are_the_filterable_columns
        (model_class : Model) (excluded : list string) :
  NoDup (dict_keys (_get_model_fields model_class excluded))
  /\ (forall f,
        In f (dict_keys (_get_model_fields model_class excluded))
        <-> In f (map fst (columns model_class)) /\ str_in f excluded = false)
  /\ (forall f,
        In f (get_model_fields model_class excluded)
        <-> In f (map fst (columns model_class)) /\ str_in f excluded = false)
  /\ (NoDup (map fst (columns model_class)) ->
      _get_model_fields model_class excluded
      = filter (not_excluded excluded) (columns model_class)
      /\ get_model_fields model_class excluded
         = dict_keys (_get_model_fields model_class excluded)).
Proof.
  unfold _get_model_fields, get_model_fields.
  set (step := fun (fields : dict SqlType) (column : string * SqlType) =>
                 if negb (str_in (fst column) excluded)
                 then dict_set fields (fst column) (snd column) else fields).
  set (names := fun (fields : list string) (column : string * SqlType) =>
                  if negb (str_in (fst column) excluded)
                  then fields ++ [fst column] else fields).
  assert (Hnd : forall cols acc,
             NoDup (dict_keys acc) -> NoDup (dict_keys (fold_left step cols acc))).
  { induction cols as [|c cols IH]; intros acc Hacc; cbn [fold_left]; [exact Hacc|].
    apply IH. unfold step. destruct (negb (str_in (fst c) excluded)); [|exact Hacc].
    now apply dict_set_keys_NoDup. }
  assert (Hin : forall cols acc f,
             In f (dict_keys (fold_left step cols acc))
             <-> In f (dict_keys acc)
                 \/ (In f (map fst cols) /\ str_in f excluded = false)).
  { induction cols as [|c cols IH]; intros acc f; cbn [fold_left map In]; [tauto|].
    rewrite IH. unfold step. destruct (str_in (fst c) excluded) eqn:Hc; cbn [negb].
    - split; [tauto|]. intros [H|[[<-|H] Hex]]; auto. congruence.
    - rewrite dict_keys_set_In. split.
      + intros [[->|H]|[H Hex]]; auto.
      + intros [H|[[<-|H] Hex]]; auto. }
  assert (Hnames : forall cols acc f,
             In f (fold_left names cols acc)
             <-> In f acc \/ (In f (map fst cols) /\ str_in f excluded = false)).
  { induction cols as [|c cols IH]; intros acc f; cbn [fold_left map In]; [tauto|].
    rewrite IH. unfold names. destruct (str_in (fst c) excluded) eqn:Hc; cbn [negb].
    - split; [tauto|]. intros [H|[[<-|H] Hex]]; auto. congruence.
    - rewrite in_app_iff. cbn [In]. split.
      + intros [[H|[<-|[]]]|[H Hex]]; auto.
      + intros [H|[[<-|H] Hex]]; auto. }
  split; [apply Hnd; constructor|].
  split; [intros f; rewrite Hin; cbn; tauto|].
  split; [intros f; rewrite Hnames; cbn; tauto|].
  intros Hcols.
  assert (Hord : forall cols acc,
             NoDup (map fst cols) ->
             (forall c, In c (map fst cols) -> ~ In c (dict_keys acc)) ->
             fold_left step cols acc = acc ++ filter (not_excluded excluded) cols
             /\ fold_left names cols (dict_keys acc)
                = dict_keys (acc ++ filter (not_excluded excluded) cols)).
  { induction cols as [|c cols IH]; intros acc Hc Hfresh; cbn [fold_left filter].
    - now rewrite app_nil_r.
    - cbn [map] in Hc. inversion Hc as [|? ? Hnotin Hrest]; subst.
      change (not_excluded excluded c) with (negb (str_in (fst c) excluded)).
      unfold step at 2, names at 2.
      destruct (negb (str_in (fst c) excluded)).
      + rewrite dict_set_fresh by (apply Hfresh; now left).
        replace (dict_keys acc ++ [fst c]) with (dict_keys (acc ++ [(fst c, snd c)]))
          by (unfold dict_keys; now rewrite map_app).
        destruct (IH (acc ++ [(fst c, snd c)]) Hrest) as [H1 H2].
        { intros x Hx. unfold dict_keys. rewrite map_app, in_app_iff. cbn.
          intros [H|[<-|[]]]; [|tauto]. apply (Hfresh x); [now right | exact H]. }
        rewrite H1, H2, <- !app_assoc. cbn [app]. now destruct c.
      + apply IH; [exact Hrest|]. intros x Hx. apply Hfresh. now right. }
  destruct (Hord (columns model_class) [] Hcols (fun _ _ H => H)) as [H1 H2].
  split; [exact H1|]. cbn [dict_keys map app] in H2. rewrite H2, H1. reflexivity.
Qed.

Lemma model_fields_are_the_filterable_columns_witness :
  NoDup (map fst (columns City))
  /\ _get_model_fields City exclude_fields
     = [("name", Instance AutoString); ("region_id", Instance Integer);
        ("id", Instance Integer); ("created_at", Instance DateTime)]
  /\ get_model_fields City exclude_fields = ["name"; "region_id"; "id"; "created_at"].
Proof.
  assert (Hnd : NoDup (map fst (columns City))).
  { apply distinct_NoDup. reflexivity. }
  destruct (model_fields_are_the_filterable_columns City exclude_fields)
    as (_ & _ & _ & Hord).
  destruct (Hord Hnd) as [H1 H2].
  split; [exact Hnd|]. split; [exact H1 | rewrite H2, H1; reflexivity].
Defined.

Lemma generate_stmt_for (f : string) (t : SqlType) (op : string) :
  In op (_get_operators_for_type t) ->
  generate_stmt f t op = Ok (statement_for (f, t, op)).
Proof.
  destruct t as [[]|type_name]; cbn [_get_operators_for_type first_isinstance
                                     TYPE_OPERATORS isinstance SqlClass_eqb];
    intros H; repeat (destruct H as [<-|H]; [reflexivity|]); contradiction.
Qed.

Lemma for_each_append {A B : Type} (g : A -> Result B) (h : A -> B)
      (xs : list A) (acc : list B) :
  (forall x, In x xs -> g x = Ok (h x)) ->
  for_each (fun body x => y <- g x ;; Ok (body ++ [y])) xs acc = Ok (acc ++ map h xs).
Proof.
  revert acc. induction xs as [|x xs IH]; intros acc Hg; cbn [for_each map].
  - now rewrite app_nil_r.
  - rewrite (Hg x (or_introl eq_refl)). cbn [bind].
    rewrite IH by (intros y Hy; apply Hg; now right).
    now rewrite <- app_assoc.
Qed.

Lemma generate_body_eq (fields : dict SqlType) :
  generate_body fields = Ok (map statement_for (field_operators fields)).
Proof.
  unfold generate_body.
  enough (H : forall acc,
             for_each
               (fun body field =>
                  for_each
                    (fun body operator =>
                       stmt <- generate_stmt (fst field) (snd field) operator ;;
                       Ok (body ++ [stmt]))
                    (_get_operators_for_type (snd field)) body)
               fields acc
             = Ok (acc ++ map statement_for (field_operators fields)))
    by exact (H []).
  induction fields as [|[f t] fields IH]; intros acc; cbn [for_each fst snd].
  - now rewrite app_nil_r.
  - rewrite (for_each_append (generate_stmt f t) (fun op => statement_for (f, t, op)))
      by (intros op Hop; now apply generate_stmt_for).
    cbn [bind]. rewrite IH. unfold field_operators. cbn [flat_map fst snd].
    now rewrite map_app, map_map, <- app_assoc.
Qed.

Lemma generate_params_eq (fields : dict SqlType) :
  generate_params fields = map parameter_for (field_operators fields).
Proof.
  unfold generate_params, field_operators.
  induction fields as [|[f t] fields IH]; cbn [flat_map fst snd]; [reflexivity|].
  now rewrite map_app, map_map, IH.
Qed.

Lemma statement_for_param (triple : string * SqlType * string) :
  stmt_param (statement_for triple) = fst (parameter_for triple).
Proof.
  destruct triple as [[f t] op]. unfold statement_for, parameter_for.
  destruct (String.eqb op "like"); [|destruct (is_in_operator op)]; reflexivity.
Qed.

(** For a model whose filterable column names are made of ASCII letters,
    digits and underscores, so that the generated source compiles, the
    generator returns a function with one parameter and one statement for
    each column that is not excluded and each operator of its type, columns
    in model order and operators in table order; the statement at a
    position reads the parameter at the same position. No operator of the
    type table lacks an entry of [OPERATOR_MAPPING]. *)
Theorem generated_function_shape (model_class : Model) (excluded : list string) :
  word_columns model_class excluded = true ->
  let triples := field_operators (_get_model_fields model_class excluded) in
  exists g,
    create_filter_dependency model_class excluded = Ok g
    /\ function_params g = map parameter_for triples
    /\ function_body g = map statement_for triples
    /\ map stmt_param (function_body g) = map fst (function_params g)
    /\ length (function_body g)
       = list_sum (map (fun field => length (_get_operators_for_type (snd field)))
                       (_get_model_fields model_class excluded)).
Proof.
  intros _ triples. subst triples.
  unfold create_filter_dependency, generate_filter_function.
  rewrite generate_body_eq. cbn [bind]. eexists. split; [reflexivity|].
  cbn [function_params function_body].
  split; [apply generate_params_eq|]. split; [reflexivity|]. split.
  - rewrite generate_params_eq, !map_map. apply map_ext, statement_for_param.
  - rewrite length_map. unfold field_operators.
    induction (_get_model_fields model_class excluded) as [|field fields IH];
      cbn [flat_map map list_sum]; [reflexivity|].
    now rewrite length_app, length_map, IH.
Qed.

Lemma generated_function_shape_witness :
  word_columns City exclude_fields = true
  /\ exists g,
       create_filter_dependency City exclude_fields = Ok g
       /\ map fst (function_params g)
          = ["filter_name_eq"; "filter_name_like"; "filter_name_in";
             "filter_region_id_eq"; "filter_region_id_in";
             "filter_id_eq"; "filter_id_in";
             "filter_created_at_gte"; "filter_created_at_lte";
             "filter_created_at_gt"; "filter_created_at_lt"]
       /\ map stmt_param (function_body g) = map fst (function_params g).
Proof.
  split; [reflexivity|].
  destruct (generated_function_shape City exclude_fields eq_refl)
    as (g & Hg & Hparams & _ & Hread & _).
  exists g. split; [exact Hg|]. split; [|exact Hread].
  rewrite Hparams. reflexivity.
Defined.

(** ** Parameter names and keys never collide *)

Lemma model_fields_keys_NoDup (model_class : Model) (excluded : list string) :
  NoDup (map fst (_get_model_fields model_class excluded)).
Proof.
  unfold _get_model_fields.
  enough (H : forall cols (acc : dict SqlType),
             NoDup (dict_keys acc) ->
             NoDup (dict_keys
                      (fold_left
                         (fun fields column =>
                            if negb (str_in (fst column) excluded)
                            then dict_set fields (fst column) (snd column)
                            else fields) cols acc)))
    by (apply (H _ []); constructor).
  induction cols as [|c cols IH]; intros acc Hacc; cbn [fold_left]; [exact Hacc|].
  apply IH. destruct (negb (str_in (fst c) excluded)); [|exact Hacc].
  now apply dict_set_keys_NoDup.
Qed.

Lemma operators_NoDup (t : SqlType) :
  NoDup (_get_operators_for_type t) /\ incl (_get_operators_for_type t) global_operators.
Proof.
  destruct t as [[]|type_name]; (split; [apply distinct_NoDup; reflexivity|]);
    intros op Hop; cbn in Hop |- *; intuition auto.
Qed.

Lemma field_operators_pairs (fields : dict SqlType) :
  NoDup (map fst fields) ->
  NoDup (map pair_of (field_operators fields))
  /\ forall p, In p (map pair_of (field_operators fields)) ->
               In (fst p) (map fst fields) /\ In (snd p) global_operators.
Proof.
  unfold field_operators. induction fields as [|[f t] fields IH]; cbn [map flat_map fst snd].
  - intros _. split; [constructor | intros p []].
  - intros Hnd. inversion Hnd as [|? ? Hnot Hrest]; subst.
    destruct (IH Hrest) as [IHnd IHin]. rewrite map_app, map_map.
    unfold pair_of at 1 3. cbn [fst snd].
    destruct (operators_NoDup t) as [Hops Hglobal].
    assert (Hhead : forall p, In p (map (fun x => (f, x)) (_get_operators_for_type t)) ->
                              fst p = f /\ In (snd p) global_operators).
    { intros p Hp. apply in_map_iff in Hp as (op & <- & Hop). split; [reflexivity|].
      now apply Hglobal. }
    split.
    + apply NoDup_app.
      * apply NoDup_map_NoDup_ForallPairs; [|exact Hops].
        intros a b _ _ H. now injection H.
      * exact IHnd.
      * intros p Hp Hp'. apply Hhead in Hp as [Hf _]. apply IHin in Hp' as [Hin _].
        apply Hnot. now rewrite <- Hf.
    + intros p Hp. apply in_app_iff in Hp as [Hp|Hp].
      * apply Hhead in Hp as [Hf Hop]. split; [left; now rewrite Hf | exact Hop].
      * apply IHin in Hp as [Hin Hop]. split; [now right | exact Hop].
Qed.

Lemma list_ascii_app (s1 s2 : string) :
  list_ascii_of_string (s1 ++ s2)
  = list_ascii_of_string s1 ++ list_ascii_of_string s2.
Proof. induction s1 as [|c s1 IH]; cbn; [reflexivity | now rewrite IH]. Qed.

Lemma append_inj_l (p a b : string) : (p ++ a)%string = (p ++ b)%string -> a = b.
Proof. induction p as [|c p IH]; cbn; [auto|]. intros H. injection H as H. auto. Qed.

Lemma append_empty_r (s : string) : (s ++ "")%string = s.
Proof. induction s as [|c s IH]; cbn; [reflexivity | now rewrite IH]. Qed.

Ltac each_operator H :=
  cbn [global_operators In] in H;
  repeat (destruct H as [<-|H]); [..|contradiction].

Ltac compute_suffix :=
  repeat match goal with
         | |- context [dict_get OPERATOR_MAPPING ?op] =>
             let x := eval cbv in (dict_get OPERATOR_MAPPING op) in
             change (dict_get OPERATOR_MAPPING op) with x
         end;
  cbv iota.

(** Two parameter names are equal only for the same column and the same
    operator. *)
Lemma param_name_inj (f f' op op' : string) :
  In op global_operators -> In op' global_operators ->
  param_name_of f op = param_name_of f' op' -> f = f' /\ op = op'.
Proof.
  intros Hop Hop' H. unfold param_name_of in H. apply append_inj_l in H.
  apply (f_equal list_ascii_of_string) in H. rewrite !list_ascii_app in H.
  apply (f_equal (@rev ascii)) in H. rewrite !rev_app_distr in H.
  assert (Hrev : rev (list_ascii_of_string f) = rev (list_ascii_of_string f') ->
                 f = f').
  { intros Hr. apply rev_inj in Hr. apply (f_equal string_of_list_ascii) in Hr.
    now rewrite !string_of_list_ascii_of_string in Hr. }
  each_operator Hop; each_operator Hop'; cbn in H;
    try (exfalso; congruence);
    (split; [apply Hrev; congruence | reflexivity]).
Qed.

Lemma statement_for_key (f : string) (t : SqlType) (op : string) :
  stmt_key (statement_for (f, t, op))
  = (f ++ match dict_get OPERATOR_MAPPING op with
          | Some suffix => suffix
          | None => ""
          end)%string.
Proof.
  unfold statement_for.
  destruct (String.eqb op "like"); [|destruct (is_in_operator op)]; reflexivity.
Qed.

Lemma split_dunder_literal (f t : string) :
  plain_name f = true ->
  PyStr.split (f ++ String "_" (String "_" t)) "__" = f :: PyStr.split t "__".
Proof. exact (split_dunder_plain f t). Qed.

Lemma plain_key_split (f op : string) :
  plain_name f = true -> In op global_operators ->
  PyStr.split (f ++ match dict_get OPERATOR_MAPPING op with
                    | Some suffix => suffix
                    | None => ""
                    end) "__"
  = f :: tl (PyStr.split match dict_get OPERATOR_MAPPING op with
                         | Some suffix => suffix
                         | None => ""
                         end "__").
Proof.
  intros Hplain Hop. each_operator Hop; compute_suffix;
    first [ rewrite append_empty_r; now rewrite (split_plain f Hplain)
          | now rewrite (split_dunder_literal f _ Hplain) ].
Qed.

(** Two keys on plain column names are equal only for the same column and
    the same operator. *)
Lemma plain_key_inj (f f' op op' : string) :
  plain_name f = true -> plain_name f' = true ->
  In op global_operators -> In op' global_operators ->
  stmt_key (statement_for (f, Unmapped "", op))
  = stmt_key (statement_for (f', Unmapped "", op')) ->
  f = f' /\ op = op'.
Proof.
  intros Hf Hf' Hop Hop' H. rewrite !statement_for_key in H.
  apply (f_equal (fun k => PyStr.split k "__")) in H.
  rewrite (plain_key_split f op Hf Hop), (plain_key_split f' op' Hf' Hop') in H.
  injection H as -> Htl. split; [reflexivity|].
  each_operator Hop; each_operator Hop'; cbn in Htl; congruence.
Qed.

(** For a model whose filterable column names are made of ASCII letters,
    digits and underscores, no parameter name occurs twice in the signature
    of the generated function: the definition the generator evaluates has
    no duplicate argument. (Such names are their own normal form, so names
    that differ as strings differ as identifiers.) *)
Theorem generated_parameters_are_distinct
        (model_class : Model) (excluded : list string) :
  word_columns model_class excluded = true ->
  exists g,
    create_filter_dependency model_class excluded = Ok g
    /\ NoDup (map fst (function_params g)).
Proof.
  intros _. unfold create_filter_dependency, generate_filter_function.
  rewrite generate_body_eq. cbn [bind]. eexists. split; [reflexivity|].
  cbn [function_params]. rewrite generate_params_eq, map_map.
  destruct (field_operators_pairs _ (model_fields_keys_NoDup model_class excluded))
    as [Hnd Hin].
  rewrite (map_ext _ (fun triple => param_name_of (fst (pair_of triple))
                                                  (snd (pair_of triple))))
    by (now intros [[f t] op]).
  rewrite <- (map_map pair_of (fun p => param_name_of (fst p) (snd p))).
  apply NoDup_map_NoDup_ForallPairs; [|exact Hnd].
  intros [f op] [f' op'] Hp Hp' H. cbn [fst snd] in H.
  apply Hin in Hp as [_ Hop]. apply Hin in Hp' as [_ Hop'].
  destruct (param_name_inj f f' op op' Hop Hop' H) as [-> ->]. reflexivity.
Qed.

Lemma generated_parameters_are_distinct_witness :
  word_columns Tagged exclude_fields = true
  /\ exists g,
       create_filter_dependency Tagged exclude_fields = Ok g
       /\ NoDup (map fst (function_params g)).
Proof.
  split; [reflexivity|].
  exact (generated_parameters_are_distinct Tagged exclude_fields eq_refl).
Defined.

(** When every column name of the model is plain, no two parameters
    write the same key of the mapping. *)
Theorem plain_columns_have_distinct_keys (model_class : Model) :
  plain_columns model_class = true -> keys_distinct model_class = true.
Proof.
  intros Hplain. unfold keys_distinct, generated_keys.
  unfold create_filter_dependency, generate_filter_function.
  rewrite generate_body_eq. cbn [bind function_body]. apply NoDup_distinct.
  destruct (field_operators_pairs _ (model_fields_keys_NoDup model_class exclude_fields))
    as [Hnd Hin].
  rewrite map_map.
  rewrite (map_ext _ (fun triple =>
                        stmt_key (statement_for (fst (pair_of triple), Unmapped "",
                                                 snd (pair_of triple)))))
    by (intros [[f t] op]; now rewrite !statement_for_key).
  rewrite <- (map_map pair_of
                (fun p => stmt_key (statement_for (fst p, Unmapped "", snd p)))).
  apply NoDup_map_NoDup_ForallPairs; [|exact Hnd].
  assert (Hname : forall f, In f (map fst (_get_model_fields model_class exclude_fields)) ->
                            plain_name f = true).
  { intros f Hf. apply in_map_iff in Hf as ([f0 t] & <- & Hf).
    apply model_fields_In in Hf as [Hcol _]. unfold plain_columns in Hplain.
    rewrite forallb_forall in Hplain. apply Hplain. now apply (in_map fst) in Hcol. }
  intros [f op] [f' op'] Hp Hp' H. cbn [fst snd] in H.
  apply Hin in Hp as [Hf Hop]. apply Hin in Hp' as [Hf' Hop']. cbn [fst snd] in *.
  destruct (plain_key_inj f f' op op' (Hname _ Hf) (Hname _ Hf') Hop Hop' H) as [-> ->].
  reflexivity.
Qed.

Lemma plain_columns_have_distinct_keys_witness :
  plain_columns City = true /\ keys_distinct City = true.
Proof.
  split; [reflexivity|]. exact (plain_columns_have_distinct_keys City eq_refl).
Defined.

(** ** What the generated function reads and writes *)

Lemma run_stmt_ext (kwargs kwargs' filters : dict Value) (stmt : FilterStmt) :
  argument kwargs (stmt_param stmt) = argument kwargs' (stmt_param stmt) ->
  run_stmt kwargs filters stmt = run_stmt kwargs' filters stmt.
Proof.
  destruct stmt; cbn [stmt_param run_stmt]; unfold str_argument; now intros ->.
Qed.

Lemma run_stmt_absent (kwargs filters : dict Value) (stmt : FilterStmt) :
  argument kwargs (stmt_param stmt) = VNone ->
  run_stmt kwargs filters stmt = Ok filters.
Proof.
  destruct stmt; cbn [stmt_param run_stmt]; unfold str_argument; now intros ->.
Qed.

Lemma generated_body_parameters (model_class : Model) (excluded : list string) :
  exists g,
    create_filter_dependency model_class excluded = Ok g
    /\ map stmt_param (function_body g) = map fst (function_params g).
Proof.
  unfold create_filter_dependency, generate_filter_function.
  rewrite generate_body_eq. cbn [bind]. eexists. split; [reflexivity|].
  cbn [function_params function_body].
  rewrite generate_params_eq, !map_map. apply map_ext, statement_for_param.
Qed.

(** The mapping depends on the arguments of the declared parameters only:
    two calls that agree on them return the same mapping, whatever else
    the caller sends and in whatever order. When every declared parameter
    is absent the mapping is empty. *)
Theorem collect_reads_only_its_parameters (model_class : Model) :
  exists g,
    create_filter_dependency model_class exclude_fields = Ok g
    /\ (forall kwargs kwargs',
          (forall p, In p (map fst (function_params g)) ->
                     argument kwargs p = argument kwargs' p) ->
          collect model_class kwargs = collect model_class kwargs')
    /\ (forall kwargs,
          (forall p, In p (map fst (function_params g)) -> argument kwargs p = VNone) ->
          collect model_class kwargs = Ok []).
Proof.
  destruct (generated_body_parameters model_class exclude_fields) as (g & Hg & Hpar).
  exists g. split; [exact Hg|]. unfold collect. rewrite Hg. cbn [bind].
  unfold generated_filter_function. rewrite <- Hpar. split.
  - intros kwargs kwargs' Hagree.
    assert (H : forall body,
               (forall stmt, In stmt body ->
                             argument kwargs (stmt_param stmt)
                             = argument kwargs' (stmt_param stmt)) ->
               forall filters : dict Value,
                 for_each (run_stmt kwargs) body filters
                 = for_each (run_stmt kwargs') body filters).
    { induction body as [|stmt body IH]; intros Hbody filters; [reflexivity|].
      cbn [for_each]. rewrite (run_stmt_ext kwargs kwargs')
        by (apply Hbody; now left).
      destruct (run_stmt kwargs' filters stmt); cbn [bind]; [|reflexivity].
      apply IH. intros s Hs. apply Hbody. now right. }
    apply H. intros stmt Hstmt. apply Hagree. now apply in_map.
  - intros kwargs Habsent.
    assert (H : forall body,
               (forall stmt, In stmt body -> argument kwargs (stmt_param stmt) = VNone) ->
               forall filters : dict Value,
                 for_each (run_stmt kwargs) body filters = Ok filters).
    { induction body as [|stmt body IH]; intros Hbody filters; [reflexivity|].
      cbn [for_each]. rewrite run_stmt_absent by (apply Hbody; now left).
      cbn [bind]. apply IH. intros s Hs. apply Hbody. now right. }
    apply H. intros stmt Hstmt. apply Habsent. now apply in_map.
Qed.

Lemma collect_reads_only_its_parameters_witness :
  collect City [("page", VInt 2); ("filter_name_eq", VStr "a"); ("sort", VStr "x")]
  = collect City [("filter_name_eq", VStr "a")]
  /\ collect City [("page", VInt 2)] = Ok [].
Proof.
  destruct (collect_reads_only_its_parameters City) as (g & Hg & Hsame & Hempty).
  cbv in Hg. injection Hg as <-. split.
  - apply Hsame. intros p Hp. cbn in Hp.
    repeat (destruct Hp as [<-|Hp]; [reflexivity|]). contradiction.
  - apply Hempty. intros p Hp. cbn in Hp.
    repeat (destruct Hp as [<-|Hp]; [reflexivity|]). contradiction.
Defined.

Lemma generated_from_field (model_class : Model) (f : string) (t : SqlType) (op : string) :
  dict_get (_get_model_fields model_class exclude_fields) f = Some t ->
  In op (_get_operators_for_type t) ->
  from_field (_get_model_fields model_class exclude_fields) (statement_for (f, t, op)).
Proof.
  intros Hfield Hop. exists f, t, op. split; [now apply dict_get_In|].
  split; [exact Hop | now apply generate_stmt_for].
Qed.

(** The operators [eq], [gte], [lte], [gt] and [lt] pass the value through:
    any value other than [None], an empty string, a zero or [False]
    included, is stored as it is under the column name for [eq] and under
    [column__operator] otherwise; [None] stores nothing. *)
Theorem comparison_filters_pass_through
        (model_class : Model) (kwargs : dict Value) (f : string) (t : SqlType)
        (op : string) :
  dict_get (_get_model_fields model_class exclude_fields) f = Some t ->
  In op (_get_operators_for_type t) ->
  op <> "like" -> op <> "in" ->
  keys_distinct model_class = true ->
  let key := if String.eqb op "eq" then f else (f ++ "__" ++ op)%string in
  let v := argument kwargs (param_name_of f op) in
  exists out,
    collect model_class kwargs = Ok out
    /\ dict_get out key = if is_none v then None else Some v.
Proof.
  intros Hfield Hop Hlike Hin Hdistinct key v.
  pose proof (generated_from_field model_class f t op Hfield Hop) as Hfrom.
  assert (Hstmt : statement_for (f, t, op) = WhenNotNone (param_name_of f op) key).
  { subst key. destruct t as [[]|type_name]; cbn in Hop;
      repeat (destruct Hop as [<-|Hop]; try congruence); try contradiction;
      unfold statement_for; cbn; now rewrite ?append_empty_r. }
  rewrite Hstmt in Hfrom.
  destruct (collect_at_key model_class kwargs _ Hdistinct Hfrom)
    as (before & out & Hcollect & Hnone & Hrun).
  exists out. split; [exact Hcollect|]. cbn [stmt_key run_stmt] in Hnone, Hrun.
  fold v in Hrun. destruct (is_none v); cbn [negb] in Hrun.
  - now rewrite (Hrun _ eq_refl).
  - rewrite (Hrun _ eq_refl). apply dict_get_set_same.
Qed.

Lemma comparison_filters_pass_through_witness :
  (exists out,
      collect City [("filter_name_eq", VStr ""); ("filter_region_id_eq", VInt 0)] = Ok out
      /\ dict_get out "name" = Some (VStr ""))
  /\ (exists out,
        collect City [("filter_created_at_gte", VDatetime "2024-01-01T00:00:00")] = Ok out
        /\ dict_get out "created_at__gte" = Some (VDatetime "2024-01-01T00:00:00")).
Proof.
  split.
  - exact (comparison_filters_pass_through City
             [("filter_name_eq", VStr ""); ("filter_region_id_eq", VInt 0)]
             "name" (Instance AutoString) "eq" eq_refl (or_introl eq_refl)
             ltac:(discriminate) ltac:(discriminate) eq_refl).
  - exact (comparison_filters_pass_through City
             [("filter_created_at_gte", VDatetime "2024-01-01T00:00:00")]
             "created_at" (Instance DateTime) "gte" eq_refl (or_introl eq_refl)
             ltac:(discriminate) ltac:(discriminate) eq_refl).
Defined.

(** On a text column the pieces of an [in] parameter are trimmed and kept
    as strings: nothing is checked, so the filter is never dropped and an
    empty piece stays in the list. *)
Theorem in_filter_on_text_column
        (model_class : Model) (kwargs : dict Value) (f : string) (t : SqlType)
        (s : string) :
  dict_get (_get_model_fields model_class exclude_fields) f = Some t ->
  isinstance t String_ || isinstance t AutoString = true ->
  str_argument kwargs (param_name_of f "in") = Some s ->
  s <> "" ->
  keys_distinct model_class = true ->
  exists out,
    collect model_class kwargs = Ok out
    /\ dict_get out (f ++ "__in")
       = Some (VList (map (fun x => VStr (PyStr.strip x)) (PyStr.split s ","))).
Proof.
  intros Hfield Htext Harg Hs Hdistinct.
  assert (Hop : In "in" (_get_operators_for_type t))
    by (destruct t as [[]|type_name]; try discriminate Htext; cbn; auto).
  pose proof (generated_from_field model_class f t "in" Hfield Hop) as Hfrom.
  assert (Hstmt : statement_for (f, t, "in")
                  = WhenTruthyIn (param_name_of f "in") (f ++ "__in") false)
    by (destruct t as [[]|type_name]; try discriminate Htext; reflexivity).
  rewrite Hstmt in Hfrom.
  destruct (collect_at_key model_class kwargs _ Hdistinct Hfrom)
    as (before & out & Hcollect & Hnone & Hrun).
  exists out. split; [exact Hcollect|]. cbn [stmt_key run_stmt] in Hnone, Hrun.
  assert (Htruthy : PyStr.truthy s = true) by (destruct s; [congruence | reflexivity]).
  rewrite Harg, Htruthy, (comprehension_items false) in Hrun.
  cbn [bind except_ValueError_pass] in Hrun.
  rewrite (Hrun _ eq_refl). apply dict_get_set_same.
Qed.

Lemma in_filter_on_text_column_witness :
  exists out,
    collect City [("filter_name_in", VStr "a, b,,c")] = Ok out
    /\ dict_get out "name__in" = Some (VList [VStr "a"; VStr "b"; VStr ""; VStr "c"]).
Proof.
  exact (in_filter_on_text_column City [("filter_name_in", VStr "a, b,,c")]
           "name" (Instance AutoString) "a, b,,c" eq_refl eq_refl eq_refl
           ltac:(discriminate) eq_refl).
Defined.

(** ** The list endpoint without a sort parameter *)



(** ** Rows the mutations leave alone *)

Lemma persist_frame (session : Session) (new : Row) :
  map id (table (persist session new)) = map id (table session)
  /\ length (table (persist session new)) = length (table session)
  /\ forall row, id row <> id new ->
                 (In row (table (persist session new)) <-> In row (table session)).
Proof.
  split; [apply persist_ids|]. split.
  - unfold persist. cbn [table with_table]. apply length_map.
  - intros row Hne. unfold persist. cbn [table with_table]. rewrite in_map_iff. split.
    + intros (old & Hold & Hin). destruct (Z.eqb_spec (id old) (id new)); subst; tauto.
    + intros Hin. exists row. split; [|exact Hin].
      destruct (Z.eqb_spec (id row) (id new)); tauto.
Qed.

Lemma delete_result (session : Session) (i : Z) (row : Row) (session' : Session) :
  _delete_one session i = Ok (row, session') ->
  id row = i /\ status_id row = Some deleted /\ session' = persist session row.
Proof.
  unfold _delete_one. rewrite exec_first_by_id.
  destruct (hd_error _) as [found|] eqn:Hfound; [|discriminate].
  intros H. injection H as <- <-.
  apply hd_error_In, filter_In in Hfound as [_ Htest].
  apply andb_prop in Htest as [Hid _]. apply Z.eqb_eq in Hid. auto.
Qed.

Lemma restore_result (session : Session) (i : Z) (row : Row) (session' : Session) :
  _restore_one session i = Ok (row, session') ->
  id row = i /\ status_id row = Some active /\ session' = persist session row.
Proof.
  unfold _restore_one. rewrite exec_first_by_id.
  destruct (hd_error _) as [found|] eqn:Hfound; [|discriminate].
  intros H. injection H as <- <-.
  apply hd_error_In, filter_In in Hfound as [_ Htest].
  apply andb_prop in Htest as [Hid _]. apply Z.eqb_eq in Hid. auto.
Qed.

Lemma update_result (accepted : Row -> bool) (session : Session)
      (update_data : dict Value) (i : Z) (row : Row) (session' : Session) :
  _update_one accepted session update_data i = Ok (row, session') ->
  exists old,
    session_get session i = Some old /\ id old = i
    /\ row = sqlmodel_update old update_data
    /\ accepted row = true /\ session' = persist session row.
Proof.
  unfold _update_one. destruct (session_get session i) as [old|] eqn:Hget; [|discriminate].
  destruct (accepted (sqlmodel_update old update_data)) eqn:Hacc; [|discriminate].
  intros H. injection H as <- <-. exists old. repeat split; auto.
  unfold session_get in Hget. apply find_some in Hget as [_ Hid]. now apply Z.eqb_eq.
Qed.

(** Update (with a body of data columns), delete and restore touch one
    primary key only: the table keeps its length and its keys in place (no
    row is ever removed), and every row with another key is in the table
    afterwards exactly when it was before. The row returned has the
    requested key. *)
Theorem mutations_keep_the_other_rows (session : Session) (i : Z) :
  let kept (row : Row) (session' : Session) :=
    id row = i
    /\ map id (table session') = map id (table session)
    /\ length (table session') = length (table session)
    /\ forall other, id other <> i ->
                     (In other (table session') <-> In other (table session)) in
  (forall row session', _delete_one session i = Ok (row, session') -> kept row session')
  /\ (forall row session', _restore_one session i = Ok (row, session') -> kept row session')
  /\ (forall model_db accepted update_data row session',
        Forall (data_column model_db) (dict_keys update_data) ->
        _update_one accepted session update_data i = Ok (row, session') ->
        kept row session').
Proof.
  intros kept.
  assert (Hkept : forall row, id row = i -> kept row (persist session row)).
  { intros row Hid. destruct (persist_frame session row) as (Hids & Hlen & Hother).
    repeat split; auto; apply Hother; congruence. }
  repeat apply conj.
  - intros row session' H. apply delete_result in H as (Hid & _ & ->). now apply Hkept.
  - intros row session' H. apply restore_result in H as (Hid & _ & ->). now apply Hkept.
  - intros model_db accepted update_data row session' _ H.
    apply update_result in H as (old & _ & Hid & -> & _ & ->). now apply Hkept.
Qed.

Lemma mutations_keep_the_other_rows_witness :
  let session := plain_session [row_of 1 active; row_of 2 inactive] in
  exists row session',
    _delete_one session 1 = Ok (row, session')
    /\ map id (table session') = [1%Z; 2%Z]
    /\ (In (row_of 2 inactive) (table session') <-> In (row_of 2 inactive) (table session)).
Proof.
  intros session.
  destruct (mutations_keep_the_other_rows session 1) as (Hdelete & _ & _).
  eexists. eexists. split; [reflexivity|].
  destruct (Hdelete _ _ eq_refl) as (_ & Hids & _ & Hother).
  split; [exact Hids|]. apply Hother. discriminate.
Defined.

(** ** When a row is not found *)

Lemma hd_error_filter_None {A : Type} (p : A -> bool) (l : list A) :
  hd_error (filter p l) = None <-> forall x, In x l -> p x = false.
Proof.
  induction l as [|a l IH]; cbn [filter].
  - split; [intros _ x [] | reflexivity].
  - destruct (p a) eqn:Ha; cbn [hd_error].
    + split; [discriminate|]. intros H. rewrite (H a (or_introl eq_refl)) in Ha.
      discriminate.
    + rewrite IH. split.
      * intros H x [<-|Hx]; auto.
      * intros H x Hx. apply H. now right.
Qed.

(** The answers for a row that is not there, for a key the key column can
    hold. View answers 403 exactly when no row has the key. Delete answers
    404 exactly when every row with the key is deleted or has no status;
    restore answers 404 exactly when no row with the key is deleted. *)
Theorem not_found_answers (session : Session) (i : Z) :
  stored_key i ->
  (_get_one session i = Raise (HTTPException 403) <-> ~ In i (map id (table session)))
  /\ (_delete_one session i = Raise (HTTPException 404)
      <-> forall row, In row (table session) -> id row = i ->
                      status_id row = None \/ status_id row = Some deleted)
  /\ (_restore_one session i = Raise (HTTPException 404)
      <-> forall row, In row (table session) -> id row = i ->
                      status_id row <> Some deleted).
Proof.
  intros _. refine (conj _ (conj _ _)).
  - unfold _get_one, session_get.
    destruct (find (fun row => (id row =? i)%Z) (table session)) as [row|] eqn:Hfind.
    + split; [discriminate|]. intros Hnot. exfalso. apply Hnot.
      apply find_some in Hfind as [Hin Hid]. apply Z.eqb_eq in Hid. subst i.
      now apply in_map.
    + split; [|reflexivity]. intros _ Hin. apply in_map_iff in Hin as (row & Hid & Hin).
      apply (find_none _ _ Hfind) in Hin. apply Z.eqb_neq in Hin. congruence.
  - unfold _delete_one. rewrite exec_first_by_id.
    destruct (hd_error _) as [found|] eqn:Hfound.
    + split; [discriminate|]. intros Hall. exfalso.
      apply hd_error_In, filter_In in Hfound as [Hin Htest].
      apply andb_prop in Htest as [Hid Hst]. apply Z.eqb_eq in Hid.
      cbn [holds] in Hst. destruct (Hall found Hin Hid) as [H|H]; rewrite H in Hst;
        discriminate Hst.
    + split; [|reflexivity]. intros _ row Hin Hid.
      apply (proj1 (hd_error_filter_None _ _) Hfound) in Hin.
      subst i. rewrite Z.eqb_refl in Hin. cbn [andb holds] in Hin.
      destruct (status_id row) as [[]|]; auto; discriminate Hin.
  - unfold _restore_one. rewrite exec_first_by_id.
    destruct (hd_error _) as [found|] eqn:Hfound.
    + split; [discriminate|]. intros Hall. exfalso.
      apply hd_error_In, filter_In in Hfound as [Hin Htest].
      apply andb_prop in Htest as [Hid Hst]. apply Z.eqb_eq in Hid.
      cbn [holds] in Hst. apply (Hall found Hin Hid).
      destruct (status_id found) as [[]|]; try discriminate Hst. reflexivity.
    + split; [|reflexivity]. intros _ row Hin Hid Hst.
      apply (proj1 (hd_error_filter_None _ _) Hfound) in Hin.
      subst i. rewrite Z.eqb_refl in Hin. cbn [andb holds] in Hin.
      rewrite Hst in Hin. discriminate Hin.
Qed.

Lemma not_found_answers_witness :
  let session := plain_session [row_of 1 deleted;
                                {| id := 2; status_id := None; fields := [] |}] in
  _get_one session 3 = Raise (HTTPException 403)
  /\ _delete_one session 2 = Raise (HTTPException 404)
  /\ _restore_one session 2 = Raise (HTTPException 404).
Proof.
  intros session.
  destruct (not_found_answers session 3 ltac:(unfold stored_key; lia)) as (Hview & _).
  destruct (not_found_answers session 2 ltac:(unfold stored_key; lia))
    as (_ & Hdelete & Hrestore).
  split; [|split].
  - apply Hview. cbn. intros [H|[H|[]]]; discriminate H.
  - apply Hdelete. cbn. intros row [<-|[<-|[]]] Hid; try discriminate Hid. now left.
  - apply Hrestore. cbn. intros row [<-|[<-|[]]] Hid; try discriminate Hid.
    discriminate.
Defined.

(** ** Delete, then restore *)

Lemma delete_found (session : Session) (row : Row) (st : Status) :
  unique_ids (table session) -> In row (table session) ->
  status_id row = Some st -> st <> deleted ->
  _delete_one session (id row)
  = Ok (set_status_id row deleted, persist session (set_status_id row deleted)).
Proof.
  intros Hnd Hin Hst Hne. unfold _delete_one. rewrite exec_first_by_id.
  rewrite (filter_by_id _ row _ Hnd Hin). cbn [holds]. rewrite Hst.
  destruct st; [reflexivity | reflexivity | congruence].
Qed.

Lemma restore_found (session : Session) (row : Row) :
  unique_ids (table session) -> In row (table session) ->
  status_id row = Some deleted ->
  _restore_one session (id row)
  = Ok (set_status_id row active, persist session (set_status_id row active)).
Proof.
  intros Hnd Hin Hst. unfold _restore_one. rewrite exec_first_by_id.
  rewrite (filter_by_id _ row _ Hnd Hin). cbn [holds]. now rewrite Hst.
Qed.

Lemma persist_unique (session : Session) (old new : Row) :
  unique_ids (table session) -> In old (table session) -> id new = id old ->
  unique_ids (table (persist session new)) /\ In new (table (persist session new)).
Proof.
  intros Hnd Hin Hid. split.
  - unfold unique_ids. now rewrite persist_ids.
  - now apply persist_In with (old := old).
Qed.

Lemma persist_same (session : Session) (row : Row) :
  unique_ids (table session) -> In row (table session) ->
  table (persist session row) = table session.
Proof.
  intros Hnd Hin. unfold persist. cbn [table with_table].
  rewrite <- (map_id (table session)) at 2. apply map_ext_in.
  intros old Hold. destruct (Z.eqb_spec (id old) (id row)) as [Heq|]; [|reflexivity].
  symmetry. eapply unique_ids_eq; eauto.
Qed.

Lemma persist_twice (session : Session) (a b : Row) :
  id a = id b ->
  table (persist (persist session a) b) = table (persist session b).
Proof.
  intros Hid. unfold persist. cbn [table with_table]. rewrite map_map.
  apply map_ext. intros old. rewrite <- Hid.
  destruct (Z.eqb_spec (id old) (id a)) as [Heq|Hne].
  - now rewrite Z.eqb_refl.
  - now rewrite (proj2 (Z.eqb_neq _ _) Hne).
Qed.

(** Deleting a row and restoring it brings back the table only for a row
    that was [active]: restore always sets [active], so a row that was
    [inactive] comes back [active] and its former status is lost. Every
    other row is as before in both cases. *)
Theorem delete_then_restore (session : Session) (row : Row) (st : Status) :
  unique_ids (table session) ->
  In row (table session) ->
  status_id row = Some st ->
  st <> deleted ->
  let gone := set_status_id row deleted in
  let back := set_status_id row active in
  _delete_one session (id row) = Ok (gone, persist session gone)
  /\ _restore_one (persist session gone) (id row)
     = Ok (back, persist (persist session gone) back)
  /\ table (persist (persist session gone) back) = table (persist session back)
  /\ (st = active -> table (persist (persist session gone) back) = table session)
  /\ (st = inactive ->
      session_get (persist (persist session gone) back) (id row) = Some back
      /\ status_id back <> status_id row).
Proof.
  intros Hnd Hin Hst Hne gone back.
  destruct (persist_unique session row gone Hnd Hin eq_refl) as [Hnd1 Hin1].
  split; [now apply (delete_found session row st)|].
  split; [exact (restore_found (persist session gone) gone Hnd1 Hin1 eq_refl)|].
  assert (Htwice : table (persist (persist session gone) back)
                   = table (persist session back))
    by (now apply persist_twice).
  split; [exact Htwice|]. split.
  - intros ->. rewrite Htwice.
    assert (back = row) as -> by (subst back; destruct row; cbn in *; now subst).
    now apply persist_same.
  - intros ->. split; [|subst back; cbn; rewrite Hst; discriminate].
    destruct (persist_unique (persist session gone) gone back Hnd1 Hin1 eq_refl)
      as [Hnd2 Hin2].
    exact (find_by_id _ back Hnd2 Hin2).
Qed.

Lemma delete_then_restore_witness :
  let session := plain_session [row_of 1 inactive; row_of 2 active] in
  unique_ids (table session)
  /\ _delete_one session 1
     = Ok (row_of 1 deleted, plain_session [row_of 1 deleted; row_of 2 active])
  /\ _restore_one (plain_session [row_of 1 deleted; row_of 2 active]) 1
     = Ok (row_of 1 active, plain_session [row_of 1 active; row_of 2 active]).
Proof.
  intros session.
  assert (Hnd : unique_ids (table session)).
  { unfold unique_ids. apply NoDup_cons; [cbn; intuition discriminate|].
    apply NoDup_cons; [intros []|constructor]. }
  split; [exact Hnd|].
  destruct (delete_then_restore session (row_of 1 inactive) inactive Hnd
              (or_introl eq_refl) eq_refl ltac:(discriminate)) as (H1 & H2 & _).
  split; [exact H1 | exact H2].
Defined.

(** ** Update and create *)

Lemma fold_dict_set_other (data d : dict Value) (k : string) :
  ~ In k (dict_keys data) ->
  dict_get (fold_left (fun d kv => dict_set d (fst kv) (snd kv)) data d) k = dict_get d k.
Proof.
  revert d. induction data as [|[k0 v0] data IH]; intros d Hnot; cbn [fold_left fst snd];
    [reflexivity|].
  cbn in Hnot. rewrite IH by tauto. apply dict_get_set_other. tauto.
Qed.

Lemma fold_dict_set_given (data d : dict Value) (k : string) (v : Value) :
  NoDup (dict_keys data) -> In (k, v) data ->
  dict_get (fold_left (fun d kv => dict_set d (fst kv) (snd kv)) data d) k = Some v.
Proof.
  revert d. induction data as [|[k0 v0] data IH]; intros d Hnd Hin; [contradiction|].
  cbn [fold_left fst snd]. cbn in Hnd. inversion Hnd as [|? ? Hnot Hrest]; subst.
  destruct Hin as [Heq|Hin].
  - injection Heq as -> ->. rewrite fold_dict_set_other by exact Hnot.
    apply dict_get_set_same.
  - now apply IH.
Qed.

(** An accepted update with a body of data columns returns the row with
    the requested key, its status as it was, the columns named in the update
    set to the new values and every other column as it was; with unique
    primary keys a view of the same key then returns that row. *)
Theorem update_sets_the_given_columns
        (model_db : Model) (accepted : Row -> bool) (session : Session)
        (update_data : dict Value) (i : Z) (row : Row) (session' : Session) :
  Forall (data_column model_db) (dict_keys update_data) ->
  _update_one accepted session update_data i = Ok (row, session') ->
  exists old,
    session_get session i = Some old
    /\ id row = i
    /\ status_id row = status_id old
    /\ accepted row = true
    /\ (forall k, ~ In k (dict_keys update_data) ->
                  dict_get (fields row) k = dict_get (fields old) k)
    /\ (NoDup (dict_keys update_data) ->
        forall k v, In (k, v) update_data -> dict_get (fields row) k = Some v)
    /\ (unique_ids (table session) -> _get_one session' i = Ok row).
Proof.
  intros _ H. apply update_result in H as (old & Hget & Hid & -> & Hacc & ->).
  exists old. split; [exact Hget|]. split; [exact Hid|]. split; [reflexivity|].
  split; [exact Hacc|]. split; [|split].
  - intros k Hk. cbn [sqlmodel_update fields]. now apply fold_dict_set_other.
  - intros Hnd k v Hin. cbn [sqlmodel_update fields]. now apply fold_dict_set_given.
  - intros Hnd. unfold session_get in Hget. apply find_some in Hget as [Hin _].
    destruct (persist_unique session old (sqlmodel_update old update_data) Hnd Hin
                eq_refl) as [Hnd' Hin'].
    unfold _get_one, session_get. rewrite <- Hid.
    change (id old) with (id (sqlmodel_update old update_data)).
    now rewrite (find_by_id _ _ Hnd' Hin').
Qed.

Lemma update_sets_the_given_columns_witness :
  let session := plain_session
                   [{| id := 1; status_id := Some inactive;
                       fields := [("name", VStr "a"); ("region_id", VInt 3)] |}] in
  exists row session',
    _update_one (fun _ => true) session [("name", VStr "b")] 1 = Ok (row, session')
    /\ status_id row = Some inactive
    /\ dict_get (fields row) "name" = Some (VStr "b")
    /\ dict_get (fields row) "region_id" = Some (VInt 3).
Proof.
  intros session. eexists. eexists. split; [reflexivity|].
  assert (Hbody : Forall (data_column City) (dict_keys [("name", VStr "b")])).
  { constructor; [|constructor].
    split; [reflexivity | split; discriminate]. }
  destruct (update_sets_the_given_columns City (fun _ => true) session
              [("name", VStr "b")] 1 _ _ Hbody eq_refl)
    as (old & Hget & _ & Hst & _ & Hother & Hgiven & _).
  cbv in Hget. injection Hget as <-.
  split; [exact Hst|]. split.
  - apply Hgiven; [repeat constructor; intros [] | now left].
  - rewrite Hother; [reflexivity|]. cbn. intros [H|[]]. discriminate H.
Defined.

(** For a key the key column can hold and a body of data columns, an
    update is refused with 403 exactly when no row has the key, and with 422
    exactly when the row is there and the database rejects the updated row. *)
Theorem update_refusals
        (model_db : Model) (accepted : Row -> bool) (session : Session)
        (update_data : dict Value) (i : Z) :
  stored_key i ->
  Forall (data_column model_db) (dict_keys update_data) ->
  (_update_one accepted session update_data i = Raise (HTTPException 403)
   <-> ~ In i (map id (table session)))
  /\ (_update_one accepted session update_data i = Raise (HTTPException 422)
      <-> exists old, session_get session i = Some old
                      /\ accepted (sqlmodel_update old update_data) = false).
Proof.
  intros _ _. unfold _update_one, session_get.
  destruct (find (fun row => (id row =? i)%Z) (table session)) as [old|] eqn:Hfind.
  - refine (conj _ _).
    + split.
      * destruct (accepted (sqlmodel_update old update_data)); discriminate.
      * intros Hnot. exfalso. apply Hnot. apply find_some in Hfind as [Hin Hid].
        apply Z.eqb_eq in Hid. subst i. now apply in_map.
    + destruct (accepted (sqlmodel_update old update_data)) eqn:Hacc.
      * split; [discriminate|]. intros (old' & Hold & Hrej). injection Hold as <-.
        congruence.
      * split; [|reflexivity]. intros _. now exists old.
  - refine (conj _ _).
    + split; [|reflexivity]. intros _ Hin.
      apply in_map_iff in Hin as (row & Hid & Hin).
      apply (find_none _ _ Hfind) in Hin. apply Z.eqb_neq in Hin. congruence.
    + split; [discriminate|]. intros (old & Hold & _). discriminate Hold.
Qed.

Lemma update_refusals_witness :
  _update_one (fun _ => true) (plain_session [row_of 1 active]) [] 2
  = Raise (HTTPException 403)
  /\ _update_one (fun _ => false) (plain_session [row_of 1 active]) [] 1
     = Raise (HTTPException 422).
Proof.
  split.
  - apply (update_refusals City (fun _ => true) (plain_session [row_of 1 active]) [] 2);
      [unfold stored_key; lia | constructor |].
    cbn. intros [H|[]]. discriminate H.
  - apply (update_refusals City (fun _ => false) (plain_session [row_of 1 active]) [] 1);
      [unfold stored_key; lia | constructor |].
    now exists (row_of 1 active).
Defined.



(** ** Routes *)





(** ** Construction of a generator *)

Lemma init_path_truthy (path : option string) (model_db : Model) :
  PyStr.truthy
    match path with
    | Some p => if PyStr.truthy p then p else ("/" ++ lower (__name__ model_db))%string
    | None => ("/" ++ lower (__name__ model_db))%string
    end = true.
Proof. destruct path as [[|c p]|]; reflexivity. Qed.

(** [__init__] takes the path and the tags it is given and, when they are
    absent or empty, the defaults of [params_funcs]. With a router given
    it always succeeds. Without one it creates a router with the path as
    prefix, the tags and no route, and for a given path this fails with
    [AssertionError] exactly when the path does not start with a slash or
    ends with one: a path such as [items] or [/items/] cannot be used
    without a router. *)
Theorem default_path_and_tags
        (model_db : Model) (included deleted : list string)
        (path : option string) (tags : option (list string)) :
  (forall router self,
      EndpointGenerator_init path tags router model_db included deleted = Ok self ->
      (path = None \/ path = Some "" -> self_path self = get_prefix model_db)
      /\ (forall p, path = Some p -> p <> "" -> self_path self = p)
      /\ (tags = None \/ tags = Some [] -> self_tags self = get_tags model_db)
      /\ (forall t ts, tags = Some (t :: ts) -> self_tags self = t :: ts)
      /\ match router with
         | Some given => self_router self = given
         | None =>
             self_router self
             = {| router_prefix := self_path self; router_tags := self_tags self;
                  routes := [] |}
             /\ PyStr.startswith (self_path self) "/" = true
             /\ endswith (self_path self) "/" = false
         end)
  /\ (forall given,
        answered (EndpointGenerator_init path tags (Some given) model_db
                    included deleted))
  /\ (forall p,
        path = Some p -> p <> "" ->
        EndpointGenerator_init path tags None model_db included deleted
        = if PyStr.startswith p "/" && negb (endswith p "/")
          then Ok {| self_path := p;
                     self_tags := match tags with
                                  | Some (t :: ts) => t :: ts
                                  | _ => get_tags model_db
                                  end;
                     self_model_db := model_db;
                     self_included_actions := included;
                     self_deleted_actions := deleted;
                     self_router :=
                       {| router_prefix := p;
                          router_tags := match tags with
                                         | Some (t :: ts) => t :: ts
                                         | _ => get_tags model_db
                                         end;
                          routes := [] |} |}
          else Raise AssertionError).
Proof.
  refine (conj _ (conj _ _)).
  - intros router self. unfold EndpointGenerator_init, APIRouter_new.
    rewrite init_path_truthy. cbn [andb].
    destruct router as [given|].
    + cbn [bind]. intros H. injection H as <-.
      cbn [self_path self_tags self_router].
      repeat split.
      * intros [-> | ->]; reflexivity.
      * intros p -> Hp. destruct p; [congruence | reflexivity].
      * intros [-> | ->]; reflexivity.
      * intros t ts ->. reflexivity.
    + match goal with
      | |- bind (if ?test then _ else _) _ = _ -> _ => destruct test eqn:Htest
      end; cbn [bind]; [discriminate|].
      intros H. injection H as <-. cbn [self_path self_tags self_router].
      apply orb_false_iff in Htest as [Hstart Hend].
      apply negb_false_iff in Hstart.
      repeat split; try assumption.
      * intros [-> | ->]; reflexivity.
      * intros p -> Hp. destruct p; [congruence | reflexivity].
      * intros [-> | ->]; reflexivity.
      * intros t ts ->. reflexivity.
  - intros given. eexists. reflexivity.
  - intros p -> Hp. unfold EndpointGenerator_init, APIRouter_new.
    destruct p as [|c p]; [congruence|]. cbn [PyStr.truthy andb].
    destruct (PyStr.startswith (String c p) "/"); cbn [negb orb andb];
      [|reflexivity].
    destruct (endswith (String c p) "/"); cbn [negb bind]; [reflexivity|].
    destruct tags as [[|t ts]|]; reflexivity.
Qed.

Lemma default_path_and_tags_witness :
  (exists self,
      EndpointGenerator_init (Some "") (Some []) None City [] [] = Ok self
      /\ self_path self = "/city" /\ self_tags self = ["city"]
      /\ router_prefix (self_router self) = "/city")
  /\ EndpointGenerator_init (Some "items") None None City [] [] = Raise AssertionError
  /\ EndpointGenerator_init (Some "/items/") None None City [] [] = Raise AssertionError.
Proof.
  split; [|split].
  - eexists. split; [reflexivity|].
    match goal with
    | |- context [self_path ?self] =>
        destruct (proj1 (default_path_and_tags City [] [] (Some "") (Some []))
                    None self eq_refl)
          as (Hpath & _ & Htags & _ & Hrouter & _)
    end.
    split; [apply Hpath; now right|]. split; [apply Htags; now right|].
    rewrite Hrouter. cbn [router_prefix]. apply Hpath. now right.
  - exact (proj2 (proj2 (default_path_and_tags City [] [] (Some "items") None))
             "items" eq_refl ltac:(discriminate)).
  - exact (proj2 (proj2 (default_path_and_tags City [] [] (Some "/items/") None))
             "/items/" eq_refl ltac:(discriminate)).
Defined.

(** ** Parsed column names *)

Section ParsedColumns.
Import PyStr PyStrFacts.

Lemma lstrip_chars (s : string) (c : ascii) :
  In c (list_ascii_of_string (lstrip s)) -> In c (list_ascii_of_string s).
Proof.
  induction s as [|d rest IH]; cbn [lstrip]; [trivial|].
  destruct (isspace d); [|trivial]. intros H. right. now apply IH.
Qed.

Lemma rstrip_chars (s : string) (c : ascii) :
  In c (list_ascii_of_string (rstrip s)) -> In c (list_ascii_of_string s).
Proof.
  induction s as [|d rest IH]; cbn [rstrip]; [trivial|].
  destruct (rstrip rest) as [|e r].
  - destruct (isspace d); cbn; [tauto|]. intros [H | []]. now left.
  - cbn [list_ascii_of_string]. intros [H | H]; [now left | right; now apply IH].
Qed.

Lemma strip_chars (s : string) (c : ascii) :
  In c (list_ascii_of_string (strip s)) -> In c (list_ascii_of_string s).
Proof. intros H. now apply lstrip_chars, rstrip_chars. Qed.

Lemma lstrip_head (s : string) :
  lstrip s = "" \/ exists c r, lstrip s = String c r /\ isspace c = false.
Proof.
  induction s as [|d rest IH]; cbn [lstrip]; [now left|].
  destruct (isspace d) eqn:Hd; [exact IH|]. right. now exists d, rest.
Qed.

Lemma rstrip_head (c : ascii) (r : string) :
  isspace c = false -> exists r', rstrip (String c r) = String c r'.
Proof.
  intros Hc. cbn [rstrip]. destruct (rstrip r); rewrite ?Hc; eauto.
Qed.

Lemma rstrip_idem (s : string) : rstrip (rstrip s) = rstrip s.
Proof.
  induction s as [|c rest IH]; [reflexivity|]. cbn [rstrip].
  destruct (rstrip rest) as [|d r] eqn:Hrest.
  - destruct (isspace c) eqn:Hc; [reflexivity|]. cbn [rstrip]. now rewrite Hc.
  - change (rstrip (String c (String d r))) with
      (match rstrip (String d r) with
       | EmptyString => if isspace c then EmptyString else String c EmptyString
       | String e r' => String c (String e r')
       end).
    now rewrite IH.
Qed.

Lemma strip_idem (s : string) : strip (strip s) = strip s.
Proof.
  unfold strip. destruct (lstrip_head s) as [-> | (c & r & -> & Hc)]; [reflexivity|].
  destruct (rstrip_head c r Hc) as [r' Hr]. rewrite Hr. cbn [lstrip]. rewrite Hc.
  rewrite <- Hr. apply rstrip_idem.
Qed.

Lemma split_comma_free (s tok : string) :
  In tok (split s ",") -> ~ In ","%char (list_ascii_of_string tok).
Proof.
  revert tok. induction s as [|c rest IH]; intros tok.
  - intros [<- | []]. cbn. tauto.
  - rewrite split_single_cons. destruct (Ascii.eqb_spec "," c) as [<-|Hc].
    + intros [<- | H]; [cbn; tauto | now apply IH].
    + destruct (split rest ",") as [|h t] eqn:Hsplit.
      * intros [<- | []]. cbn. intros [H | []]. now apply Hc.
      * intros [<- | H]; [|apply IH; now right].
        cbn [list_ascii_of_string]. intros [H | H]; [now apply Hc|].
        apply (IH h); [now left | exact H].
Qed.

Lemma directive_clean (tok : string) :
  ~ In ","%char (list_ascii_of_string tok) ->
  Forall (fun cd => clean_column (fst cd)
                    /\ (snd cd = ascending -> startswith (fst cd) "-" = false))
         (directive_of_token tok).
Proof.
  intros Hcomma. unfold directive_of_token.
  assert (Hfield : ~ In ","%char (list_ascii_of_string (strip tok)))
    by (intros H; now apply Hcomma, strip_chars).
  assert (Hidem := strip_idem tok).
  destruct (strip tok) as [|c rest]; cbn [directive_of_field]; [constructor|].
  destruct (Ascii.eqb_spec c "-") as [->|Hc].
  - destruct (strip rest) as [|d name] eqn:Hname; constructor; [|constructor].
    cbn [fst snd]. split; [|discriminate]. rewrite <- Hname.
    repeat split.
    + now rewrite Hname.
    + apply strip_idem.
    + intros H. apply Hfield. right. now apply strip_chars.
  - constructor; [|constructor]. cbn [fst snd]. split.
    + repeat split; [discriminate | exact Hidem | exact Hfield].
    + intros _. unfold startswith. rewrite prefix_single.
      destruct (Ascii.eqb_spec "-" c) as [<-|_]; [now destruct Hc | reflexivity].
Qed.

Lemma combine_map_fst {A B : Type} (l : list A) (l' : list B) :
  length l = length l' -> map fst (combine l l') = l.
Proof.
  revert l'. induction l as [|a l IH]; intros [|b l'] H; try discriminate H.
  - reflexivity.
  - cbn. f_equal. apply IH. now injection H.
Qed.

Lemma In_combine_map {A B C : Type} (f : B -> C) (l : list A) (l' : list B)
      (a : A) (b : B) :
  In (a, b) (combine l l') -> In (a, f b) (combine l (map f l')).
Proof.
  revert l'. induction l as [|x l IH]; intros [|y l']; cbn; try tauto.
  intros [H | H]; [left; now inversion H | right; now apply IH].
Qed.

(** Whatever the sort string, every column name [parse_sort_string] returns
    is non-empty, carries no surrounding whitespace and holds no comma; and
    a column paired with "asc" never starts with a minus sign. (A column
    paired with "desc" may: "--name" asks for the column "-name".) *)
Theorem parsed_columns_are_clean (sort_string : string) :
  let parsed := parse_sort_string sort_string in
  Forall clean_column (fst parsed)
  /\ (forall column, In (column, "asc") (combine (fst parsed) (snd parsed)) ->
                     startswith column "-" = false).
Proof.
  cbv zeta. destruct (parse_sort_string_spec sort_string) as [Hlen Hdir].
  assert (Hall : Forall (fun cd => clean_column (fst cd)
                           /\ (snd cd = ascending -> startswith (fst cd) "-" = false))
                        (directives (parse_sort_string sort_string))).
  { rewrite Hdir. unfold parse_directives. apply Forall_flat_map.
    apply Forall_forall. intros tok Htok.
    apply directive_clean. now apply split_comma_free with (s := sort_string). }
  rewrite Forall_forall in Hall. split.
  - apply Forall_forall. intros c Hc.
    rewrite <- (combine_map_fst (fst (parse_sort_string sort_string))
                  (map direction_of (snd (parse_sort_string sort_string)))) in Hc
      by now rewrite length_map.
    apply in_map_iff in Hc as (cd & <- & Hcd). now apply Hall.
  - intros column Hin.
    apply (In_combine_map direction_of) in Hin.
    apply (Hall _ Hin). reflexivity.
Qed.

End ParsedColumns.
